(** * Scrollinga: a scroll-lock engine, embedded and verified

    A shallow embedding of the [Scrollinga] class.  The engine keeps one
    scrollable DOM element (the target) pinned to an offset computed by
    the active scroll lock, re-evaluating on mutations, resizes, image
    loads and scroll events.

    Conventions of the embedding:
    - A JavaScript number is the rational ([Q]) it denotes.  Where the
      code computes with numbers ([isScrollDown]), every addition,
      subtraction and division is followed by [fl], rounding to the
      nearest IEEE 754 double, ties to even; [Math.floor] is [Qfloor].
      Infinities, NaN and the sign of zero are not modelled.
    - The engine object ([this]) and the browser around it (the target
      element, [window], the listener registry) are two records threaded
      through a small state monad.
    - Every interaction of the engine with the browser is appended to a
      trace, newest first.  The trace is ghost state: no method reads it.
    - A lock is the pair of closures [{at, when}]; both close over the
      live target and [this], so they are functions of the browser state
      at the time they are called. *)

From Stdlib Require Import QArith Qround Qpower ZArith List String Ascii Bool
  Lia Lqa.
Import ListNotations.
Local Open Scope Q_scope.

(** ** Numbers

    A JavaScript number is a double.  The model carries its value as a
    rational and rounds the result of every arithmetic operation with
    [fl], defined below; the numbers a host holds are the values the
    code reads. *)

Definition num := Q.

(** [x < y] on numbers, as a boolean. *)
Definition Qltb (x y : num) : bool := negb (Qle_bool y x).

(** ** Rounding to a double

    [fl x] is the double nearest to [x]: the significand is rounded to
    53 bits (to even on a tie), with the exponent of the last bit no
    smaller than -1074, where doubles become subnormal.  Overflow to
    infinity is not modelled. *)

Definition pow2 (e : Z) : Q := 2 ^ e.

(** [floor (log2 x)], for [x > 0]. *)
Definition flog2 (x : Q) : Z :=
  let l := (Z.log2 (Qnum x) - Z.log2 (Z.pos (Qden x)))%Z in
  if Qle_bool (pow2 l) x then l else (l - 1)%Z.

(** The exponent of the last bit of the significand of [x > 0]. *)
Definition ulp_exponent (x : Q) : Z := Z.max (-1074) (flog2 x - 52).

(** The integer nearest to [q], the even one when two are equally near. *)
Definition rne (q : Q) : Z :=
  let f := Qfloor q in
  match Qcompare (q - inject_Z f) (1 # 2) with
  | Lt => f
  | Gt => (f + 1)%Z
  | Eq => if Z.even f then f else (f + 1)%Z
  end.

Definition fl_pos (x : Q) : Q :=
  inject_Z (rne (x / pow2 (ulp_exponent x))) * pow2 (ulp_exponent x).

Definition fl (x : Q) : Q :=
  match Qnum x with
  | Z0 => 0
  | Zpos _ => fl_pos x
  | Zneg _ => - fl_pos (- x)
  end.

(** [x] is (the value of) a double. *)
Definition double (x : Q) : Prop := fl x == x.

(** ** The browser side *)

(** The attributes of the target element the engine consumes. *)
Record Target := mkTarget {
  scrollTop : num;
  clientHeight : num;
  scrollHeight : num
}.

(** What the engine sees of its host: the target, the two [window]
    capabilities it probes, and the subscriptions it holds there. *)
Record Host := mkHost {
  target : Target;
  devicePixelRatio : option num;   (* [window.devicePixelRatio], [None] when absent *)
  MutationObserver : bool;         (* [window.MutationObserver] is defined *)
  observing : bool;                (* the engine's observer is connected *)
  nextTimer : positive;            (* handle the next [setInterval] returns *)
  pollTimers : list num;           (* live interval timers running [rescroll] *)
  scrollListener : bool;           (* [onScroll] registered on the target *)
  resizeListener : bool;           (* [onResize] registered on [window] *)
  loadListeners : list nat         (* one entry per 'load' listener, by image *)
}.

Definition with_target (t : Target) (h : Host) : Host :=
  mkHost t (devicePixelRatio h) (MutationObserver h) (observing h)
         (nextTimer h) (pollTimers h) (scrollListener h) (resizeListener h)
         (loadListeners h).

(** [window.devicePixelRatio || 1] *)
Definition pixelRatio (h : Host) : num :=
  match devicePixelRatio h with
  | Some r => if Qeq_bool r 0 then 1 else r
  | None => 1
  end.

(** [isScrollDown], current version:
<<
    const pixelRatio = window.devicePixelRatio || 1;
    const clientHeight = Math.floor((this.target.clientHeight + this.target.scrollTop) / pixelRatio);
    const scrollHeight = Math.floor(this.target.scrollHeight / pixelRatio);
    return (scrollHeight - clientHeight) < pixelRatio;
>>
    Each operation rounds its result; the stored [scrollHeight] is a
    double, which [fl] leaves as it is. *)
Definition isScrollDown (h : Host) : bool :=
  let pixelRatio := pixelRatio h in
  let clientHeight :=
    Qfloor (fl (fl (clientHeight (target h) + scrollTop (target h))
                / pixelRatio)) in
  let scrollHeight :=
    Qfloor (fl (fl (scrollHeight (target h)) / pixelRatio)) in
  Qltb (fl (inject_Z (scrollHeight - clientHeight))) pixelRatio.

(** [isScrollUp]: [this.target.scrollTop === 0] *)
Definition isScrollUp (h : Host) : bool := Qeq_bool (scrollTop (target h)) 0.

Module Legacy.
(** [isScrollDown] as the older copy of the file has it:
    [scrollTop + clientHeight === scrollHeight]. *)
Definition isScrollDown (h : Host) : bool :=
  Qeq_bool (fl (scrollTop (target h) + clientHeight (target h)))
           (fl (scrollHeight (target h))).
End Legacy.

(** The distance from the lower edge of the viewport to the end of the
    content, in the units of the target's own metrics. *)
Definition gap (h : Host) : num :=
  scrollHeight (target h) - (clientHeight (target h) + scrollTop (target h)).

(** ** Locks *)

(** A scroll lock [{at, when}]: [at] returns the scrollTop to snap to,
    [when] says whether the rescroll should be done.  Both are closures
    over the live target. *)
Record ScrollLock := mkLock {
  lock_at : Host -> num;
  lock_when : Host -> bool
}.

(** [{ at: () => target.scrollHeight, when: () => !this.isScrollDown() }] *)
Definition lockAtBottom : ScrollLock :=
  {| lock_at := fun h => scrollHeight (target h);
     lock_when := fun h => negb (isScrollDown h) |}.

(** [{ at: () => 0, when: () => !this.isScrollUp() }] *)
Definition lockAtTop : ScrollLock :=
  {| lock_at := fun _ => 0;
     lock_when := fun h => negb (isScrollUp h) |}.

(** [{ at: () => target.scrollHeight - prevScrollHeight, when: () => true }] *)
Definition lockAtCurrentPosition (prevScrollHeight : num) : ScrollLock :=
  {| lock_at := fun h => scrollHeight (target h) - prevScrollHeight;
     lock_when := fun _ => true |}.

(** ** The engine object *)

(** The fields of [this].  [scrollLock] is [None] for both [null] and
    the never-assigned [undefined]: the code only tests its truthiness.
    [interval] first holds the polling period and, in fallback mode, is
    overwritten by the timer handle.  [observer] records whether
    [this.observer] was created. *)
Record Scrollinga := mkSelf {
  interval : num;
  scrollLock : option ScrollLock;
  rescrolling : bool;
  observer : bool
}.

(** The engine before its constructor body runs: every field undefined. *)
Definition blank : Scrollinga := mkSelf 0 None false false.

(** ** Trace of interactions with the browser *)

(** The two assignments to [this.target.scrollTop] in the source. *)
Inductive Site := in_setInitialScrollLock | in_rescroll.

Inductive Listener := on_scroll | on_resize.

Inductive Effect :=
| Wrote (site : Site) (v : num)           (* [this.target.scrollTop = v] *)
| Called_rescroll                         (* entry of [rescroll] *)
| Observe                                 (* [observer.observe(target, ...)] *)
| Disconnect                              (* [observer.disconnect()] *)
| SetInterval (period handle : num)       (* [window.setInterval(rescroll, period)] *)
| ClearInterval (handle : num)            (* [window.clearInterval(handle)] *)
| AddEventListener (l : Listener)
| RemoveEventListener (l : Listener)
| AddLoadListener (img : nat)             (* [image.addEventListener('load', ...)] *)
| RemoveLoadListener (img : nat)
| ScrollDelivered.                        (* entry of [onScroll] *)

Record State := mkState {
  self : Scrollinga;
  host : Host;
  trace : list Effect                     (* newest first *)
}.

(** ** A state monad for the methods *)

Definition M (A : Type) : Type := State -> A * State.

Definition ret {A} (a : A) : M A := fun s => (a, s).

Definition bind {A B} (m : M A) (k : A -> M B) : M B :=
  fun s => let (a, s') := m s in k a s'.

Declare Scope js_scope.
Delimit Scope js_scope with js.
Notation "x <- m ;; k" := (bind m (fun x => k))
  (at level 61, m at next level, right associativity) : js_scope.
Notation "m ;; k" := (bind m (fun _ => k))
  (at level 61, right associativity) : js_scope.
Local Open Scope js_scope.

Definition exec {A} (m : M A) (s : State) : State := snd (m s).
Definition eval {A} (m : M A) (s : State) : A := fst (m s).

Definition this : M Scrollinga := fun s => (self s, s).
Definition window : M Host := fun s => (host s, s).
Definition emit (e : Effect) : M unit :=
  fun s => (tt, mkState (self s) (host s) (e :: trace s)).
Definition modifySelf (f : Scrollinga -> Scrollinga) : M unit :=
  fun s => (tt, mkState (f (self s)) (host s) (trace s)).
Definition modifyHost (f : Host -> Host) : M unit :=
  fun s => (tt, mkState (self s) (f (host s)) (trace s)).

Fixpoint forEach {A} (l : list A) (f : A -> M unit) : M unit :=
  match l with
  | [] => ret tt
  | a :: l' => f a ;; forEach l' f
  end.

(** Field assignments on [this]. *)
Definition set_interval (v : num) : M unit :=
  modifySelf (fun x => mkSelf v (scrollLock x) (rescrolling x) (observer x)).
Definition set_scrollLock (l : option ScrollLock) : M unit :=
  modifySelf (fun x => mkSelf (interval x) l (rescrolling x) (observer x)).
Definition set_rescrolling (b : bool) : M unit :=
  modifySelf (fun x => mkSelf (interval x) (scrollLock x) b (observer x)).
Definition set_observer (b : bool) : M unit :=
  modifySelf (fun x => mkSelf (interval x) (scrollLock x) (rescrolling x) b).

(** JavaScript truthiness of a number. *)
Definition truthy (v : num) : bool := negb (Qeq_bool v 0).

(** ** Browser primitives used by the engine *)

(** [this.target.scrollTop = v], performed at [site].  The assignment is
    stored as given, as on a plain object. *)
Definition write_scrollTop (site : Site) (v : num) : M unit :=
  emit (Wrote site v) ;;
  modifyHost (fun h =>
    with_target (mkTarget v (clientHeight (target h)) (scrollHeight (target h))) h).

Definition set_observing (b : bool) (h : Host) : Host :=
  mkHost (target h) (devicePixelRatio h) (MutationObserver h) b
         (nextTimer h) (pollTimers h) (scrollListener h) (resizeListener h)
         (loadListeners h).

Definition set_timers (n : positive) (ts : list num) (h : Host) : Host :=
  mkHost (target h) (devicePixelRatio h) (MutationObserver h) (observing h)
         n ts (scrollListener h) (resizeListener h) (loadListeners h).

Definition set_listener (l : Listener) (b : bool) (h : Host) : Host :=
  match l with
  | on_scroll =>
      mkHost (target h) (devicePixelRatio h) (MutationObserver h) (observing h)
             (nextTimer h) (pollTimers h) b (resizeListener h) (loadListeners h)
  | on_resize =>
      mkHost (target h) (devicePixelRatio h) (MutationObserver h) (observing h)
             (nextTimer h) (pollTimers h) (scrollListener h) b (loadListeners h)
  end.

Definition set_loadListeners (ls : list nat) (h : Host) : Host :=
  mkHost (target h) (devicePixelRatio h) (MutationObserver h) (observing h)
         (nextTimer h) (pollTimers h) (scrollListener h) (resizeListener h) ls.

(** [window.setInterval(rescroll, period)]: a fresh positive handle. *)
Definition setInterval (period : num) : M num :=
  h <- window ;;
  let handle := inject_Z (Z.pos (nextTimer h)) in
  emit (SetInterval period handle) ;;
  modifyHost (set_timers (Pos.succ (nextTimer h)) (handle :: pollTimers h)) ;;
  ret handle.

(** [window.clearInterval(handle)]: stops the timer with that handle, if any. *)
Definition clearInterval (handle : num) : M unit :=
  emit (ClearInterval handle) ;;
  modifyHost (fun h =>
    set_timers (nextTimer h)
               (filter (fun t => negb (Qeq_bool t handle)) (pollTimers h)) h).

Definition addEventListener (l : Listener) : M unit :=
  emit (AddEventListener l) ;; modifyHost (set_listener l true).

Definition removeEventListener (l : Listener) : M unit :=
  emit (RemoveEventListener l) ;; modifyHost (set_listener l false).

(** ** The methods of [Scrollinga] *)

(** [setScrollLock(lock)]: [this.scrollLock = lock] *)
Definition setScrollLock (lock : option ScrollLock) : M unit :=
  set_scrollLock lock.

(** [removeScrollLock()]: [this.scrollLock = null] *)
Definition removeScrollLock : M unit := set_scrollLock None.

(** [isScrollLocked()]: [!!this.scrollLock] *)
Definition isScrollLocked : M bool :=
  x <- this ;;
  ret (match scrollLock x with Some _ => true | None => false end).

(** [shouldRescroll()]: [this.isScrollLocked() && this.scrollLock.when()] *)
Definition shouldRescroll : M bool :=
  locked <- isScrollLocked ;;
  if locked then
    x <- this ;; h <- window ;;
    ret (match scrollLock x with Some l => lock_when l h | None => false end)
  else ret false.

(** [rescroll()]:
<<
    if (this.shouldRescroll()) {
      this.rescrolling = true;
      this.target.scrollTop = this.scrollLock.at();
    }
>> *)
Definition rescroll : M unit :=
  emit Called_rescroll ;;
  should <- shouldRescroll ;;
  if should then
    set_rescrolling true ;;
    x <- this ;; h <- window ;;
    match scrollLock x with
    | Some l => write_scrollTop in_rescroll (lock_at l h)
    | None => ret tt
    end
  else ret tt.

Definition setScrollLockAtBottom : M unit :=
  setScrollLock (Some lockAtBottom) ;;
  rescroll.

Definition setScrollLockAtTop : M unit :=
  setScrollLock (Some lockAtTop) ;;
  rescroll.

Definition setScrollLockAtCurrentPosition : M unit :=
  h <- window ;;
  let prevScrollHeight := scrollHeight (target h) in
  setScrollLock (Some (lockAtCurrentPosition prevScrollHeight)).

(** The [position] option: a number, a string, or absent. *)
Inductive Position :=
| Pnumber (n : num)
| Pstring (s : string)
| Pundefined.

(** [setInitialScrollLock(position)] *)
Definition setInitialScrollLock (position : Position) : M unit :=
  match position with
  | Pnumber n => write_scrollTop in_setInitialScrollLock n
  | Pstring s =>
      if String.eqb s "bottom" then setScrollLockAtBottom
      else if String.eqb s "top" then setScrollLockAtTop
      else setScrollLockAtBottom
  | Pundefined => setScrollLockAtBottom
  end.

(** [setupListeners()] *)
Definition setupListeners : M unit :=
  h <- window ;;
  (if MutationObserver h then
     set_observer true ;;
     emit Observe ;;
     modifyHost (set_observing true)
   else
     x <- this ;;
     handle <- setInterval (interval x) ;;
     set_interval handle) ;;
  addEventListener on_scroll ;;
  addEventListener on_resize.

(** [onScroll()]:
<<
    if (this.rescrolling) { this.rescrolling = false; return; }
    if (this.isScrollDown() && !this.isScrollLocked()) {
      this.setScrollLockAtBottom();
    } else if (!this.isScrollDown()) {
      this.removeScrollLock();
    }
    this.rescrolling = false;
>> *)
Definition onScroll : M unit :=
  emit ScrollDelivered ;;
  x <- this ;;
  if rescrolling x then set_rescrolling false
  else
    h <- window ;;
    locked <- isScrollLocked ;;
    (if isScrollDown h && negb locked then setScrollLockAtBottom
     else if negb (isScrollDown h) then removeScrollLock
     else ret tt) ;;
    set_rescrolling false.

(** [onResize()] *)
Definition onResize : M unit := rescroll.

Set Warnings "-register-all".

(** DOM nodes as the mutation handler inspects them.  A text node has
    neither [tagName] nor [getElementsByTagName].  An element has an
    identity, its qualified name and its children; [html] says that it
    is an HTML element of an HTML document, whose [tagName] the DOM
    reports in upper case. *)
Inductive Node :=
| TextNode
| Element (id : nat) (html : bool) (qualifiedName : string)
          (children : list Node).

Record MutationRecord := mkMutation { addedNodes : list Node }.

Definition ascii_uppercase (c : ascii) : ascii :=
  let n := nat_of_ascii c in
  if (97 <=? n)%nat && (n <=? 122)%nat then ascii_of_nat (n - 32) else c.

Fixpoint uppercase (s : string) : string :=
  match s with
  | EmptyString => EmptyString
  | String c s' => String (ascii_uppercase c) (uppercase s')
  end.

(** [node.tagName]: the qualified name, in upper case for an HTML
    element of an HTML document; undefined on a text node. *)
Definition tagName (n : Node) : option string :=
  match n with
  | TextNode => None
  | Element _ html name _ => Some (if html then uppercase name else name)
  end.

(** The elements of a subtree, the root included, that a search for the
    tag name ['img'] matches, in tree order: those whose qualified name
    is [img].  (An HTML document lower-cases the name searched for when
    it compares with an HTML element; ['img'] is in lower case already.) *)
Fixpoint images (n : Node) : list nat :=
  match n with
  | TextNode => []
  | Element id _ name kids =>
      (if String.eqb name "img" then [id] else []) ++ flat_map images kids
  end.

(** [node.getElementsByTagName('img')]: the matching descendants of an
    element; [None] where the method does not exist. *)
Definition getElementsByTagName_img (n : Node) : option (list nat) :=
  match n with
  | TextNode => None
  | Element _ _ _ kids => Some (flat_map images kids)
  end.

(** [node.tagName === 'IMG'], with the node's identity. *)
Definition is_IMG (n : Node) : option nat :=
  match n with
  | Element id _ _ _ =>
      match tagName n with
      | Some t => if String.eqb t "IMG" then Some id else None
      | None => None
      end
  | TextNode => None
  end.

(** Dropping one registry entry of [image]: what
    [image.removeEventListener('load', listener)] does for a listener
    that is attached. *)
Fixpoint detach (image : nat) (ls : list nat) : list nat :=
  match ls with
  | [] => []
  | i :: ls' => if Nat.eqb i image then ls' else i :: detach image ls'
  end.

(** [event.currentTarget.removeEventListener('load', listener)], called
    by a listener attached to [image] on itself. *)
Definition removeLoadListener (image : nat) : M unit :=
  emit (RemoveLoadListener image) ;;
  modifyHost (fun h => set_loadListeners (detach image (loadListeners h)) h).

(** The listener returned by [getImageLoadListener()], attached to
    [image]:
<<
    const listener = (event) => {
      this.rescroll();
      event.currentTarget.removeEventListener('load', listener);
    };
>> *)
Definition imageLoadListener (image : nat) : M unit :=
  rescroll ;;
  removeLoadListener image.

(** [listenToImageLoad(image)]:
    [image.addEventListener('load', this.getImageLoadListener())].
    Every call makes a new closure, so the registry gains an entry each
    time, also for an image that already has one. *)
Definition listenToImageLoad (image : nat) : M unit :=
  emit (AddLoadListener image) ;;
  modifyHost (fun h => set_loadListeners (loadListeners h ++ [image]) h).

(** [addImageListeners(mutations)] *)
Definition addImageListeners (mutations : list MutationRecord) : M unit :=
  forEach mutations (fun mutation =>
    let nodes := addedNodes mutation in
    forEach nodes (fun node =>
      (match is_IMG node with
       | Some image => listenToImageLoad image
       | None => ret tt
       end) ;;
      match getElementsByTagName_img node with
      | Some childImages => forEach childImages listenToImageLoad
      | None => ret tt
      end)).

(** [onMutation(mutations)] *)
Definition onMutation (mutations : list MutationRecord) : M unit :=
  rescroll ;;
  addImageListeners mutations.

(** [close()]:
<<
    if (this.observer) { this.observer.disconnect(); }
    if (this.interval) { window.clearInterval(this.interval); }
    this.target.removeEventListener('scroll', this.onScroll);
    window.removeEventListener('resize', this.onResize);
>> *)
Definition close : M unit :=
  x <- this ;;
  (if observer x then
     emit Disconnect ;; modifyHost (set_observing false)
   else ret tt) ;;
  (if truthy (interval x) then clearInterval (interval x) else ret tt) ;;
  removeEventListener on_scroll ;;
  removeEventListener on_resize.

Definition DEFAULT_INTERVAL_FALLBACK : num := 100.

(** The constructor's [options], without the target (it lives in the host). *)
Record Options := mkOptions {
  opt_interval : option num;
  opt_position : Position
}.

(** [options.interval || DEFAULT_INTERVAL_FALLBACK] *)
Definition interval_or_default (o : Options) : num :=
  match opt_interval o with
  | Some v => if truthy v then v else DEFAULT_INTERVAL_FALLBACK
  | None => DEFAULT_INTERVAL_FALLBACK
  end.

(** [constructor(options)] *)
Definition constructor (options : Options) : M unit :=
  set_interval (interval_or_default options) ;;
  setInitialScrollLock (opt_position options) ;;
  setupListeners ;;
  rescroll.

(** [new Scrollinga(options)] in host [h]. *)
Definition new_Scrollinga (h : Host) (options : Options) : State :=
  exec (constructor options) (mkState blank h []).

(** A page on which the engine holds no subscription yet. *)
Definition page (t : Target) (dpr : option num) (mo : bool) (timer : positive)
  : Host :=
  mkHost t dpr mo false timer [] false false [].

(** ** The browser delivering notifications *)

(** A 'load' event on [image]: the listeners registered on it when the
    event is dispatched run one after the other. *)
Definition dispatchLoad (image : nat) : M unit :=
  h <- window ;;
  forEach (filter (Nat.eqb image) (loadListeners h))
          (fun _ => imageLoadListener image).

(** What can happen to a constructed engine: its public methods are
    called, the browser delivers a notification, or the page changes
    the target's metrics (content grows, the user scrolls). *)
Inductive Step :=
| Call_setScrollLock (lock : option ScrollLock)
| Call_setScrollLockAtBottom
| Call_setScrollLockAtTop
| Call_setScrollLockAtCurrentPosition
| Call_removeScrollLock
| Call_close
| Scroll                                  (* 'scroll' on the target *)
| Resize                                  (* 'resize' on [window] *)
| Mutation (mutations : list MutationRecord)
| Load (image : nat)                      (* 'load' on an image *)
| Tick (handle : num)                     (* interval timer [handle] fires *)
| Layout (t : Target).                    (* the page changes the metrics *)

Definition step (e : Step) : M unit :=
  match e with
  | Call_setScrollLock l => setScrollLock l
  | Call_setScrollLockAtBottom => setScrollLockAtBottom
  | Call_setScrollLockAtTop => setScrollLockAtTop
  | Call_setScrollLockAtCurrentPosition => setScrollLockAtCurrentPosition
  | Call_removeScrollLock => removeScrollLock
  | Call_close => close
  | Scroll => h <- window ;; if scrollListener h then onScroll else ret tt
  | Resize => h <- window ;; if resizeListener h then onResize else ret tt
  | Mutation ms => h <- window ;; if observing h then onMutation ms else ret tt
  | Load image => dispatchLoad image
  | Tick handle =>
      h <- window ;;
      if existsb (Qeq_bool handle) (pollTimers h) then rescroll else ret tt
  | Layout t => modifyHost (with_target t)
  end.

Definition run (es : list Step) : M unit := forEach es step.


(** ** Reading traces *)

(** The scroll offsets written, newest first, with the place that wrote them. *)
Fixpoint writes (tr : list Effect) : list (Site * num) :=
  match tr with
  | [] => []
  | Wrote site v :: tr' => (site, v) :: writes tr'
  | _ :: tr' => writes tr'
  end.

(** The writes made outside [rescroll]. *)
Fixpoint writes_outside_rescroll (tr : list Effect) : list num :=
  match tr with
  | [] => []
  | Wrote in_setInitialScrollLock v :: tr' => v :: writes_outside_rescroll tr'
  | _ :: tr' => writes_outside_rescroll tr'
  end.

(** How many times [rescroll] was entered. *)
Fixpoint rescroll_calls (tr : list Effect) : nat :=
  match tr with
  | [] => 0
  | Called_rescroll :: tr' => S (rescroll_calls tr')
  | _ :: tr' => rescroll_calls tr'
  end.

(** Whether [rescroll] wrote the scroll offset after the last scroll
    notification reached [onScroll]. *)
Fixpoint wrote_since_scroll (tr : list Effect) : bool :=
  match tr with
  | [] => false
  | Wrote in_rescroll _ :: _ => true
  | ScrollDelivered :: _ => false
  | _ :: tr' => wrote_since_scroll tr'
  end.

(** ** The lock slot, untyped

    [setScrollLock] stores whatever value it is handed.  The engine
    model above keeps [this.scrollLock] as an [option ScrollLock]: every
    falsy value is [None], since the code only tests the slot's
    truthiness, and a truthy value that is not a lock is left out, since
    [rescroll] throws a TypeError on it.  This module models the slot as
    it is, for the methods that read and write it. *)

(** A JavaScript value, as far as these methods can tell values apart:
    the primitives with their payload, and an object by its [when] and
    [at] members ([None] where the member is not a function; calling it
    is a TypeError).  [when()] is given by the truthiness of its result
    and [at()] by the number the target takes from it. *)
Inductive Value :=
| Vundefined
| Vnull
| Vboolean (b : bool)
| Vnumber (n : option num)              (* [None] is NaN *)
| Vbigint (z : Z)
| Vstring (s : string)
| Vsymbol
| Vobject (when : option (Host -> bool)) (at_ : option (Host -> num)).

(** JavaScript truthiness, [!!v]. *)
Definition ToBoolean (v : Value) : bool :=
  match v with
  | Vundefined | Vnull => false
  | Vboolean b => b
  | Vnumber None => false
  | Vnumber (Some n) => negb (Qeq_bool n 0)
  | Vbigint z => negb (Z.eqb z 0)
  | Vstring s => negb (String.eqb s "")
  | Vsymbol => true
  | Vobject _ _ => true
  end.

(** The values JavaScript takes for false: [undefined], [null],
    [false], [0] and [-0], [NaN], [0n] and the empty string. *)
Definition falsy (v : Value) : Prop :=
  v = Vundefined \/ v = Vnull \/ v = Vboolean false \/ v = Vnumber None
  \/ (exists n, v = Vnumber (Some n) /\ n == 0)
  \/ v = Vbigint 0 \/ v = Vstring "".

(** [v.when], where it is a function.  A primitive has no such member
    (the built-in prototypes define none). *)
Definition member_when (v : Value) : option (Host -> bool) :=
  match v with
  | Vobject when _ => when
  | _ => None
  end.

(** [v.at], where it is a function. *)
Definition member_at (v : Value) : option (Host -> num) :=
  match v with
  | Vobject _ at_ => at_
  | _ => None
  end.

(** The value a lock of the engine model stands for. *)
Definition lock_value (l : option ScrollLock) : Value :=
  match l with
  | Some l => Vobject (Some (lock_when l)) (Some (lock_at l))
  | None => Vnull
  end.

Module Untyped.

(** The fields and surroundings these methods touch. *)
Record State := mkState {
  scrollLock : Value;
  rescrolling : bool;
  host : Host;
  trace : list Effect
}.

(** How a call ends, with the state it leaves. *)
Inductive Outcome :=
| Returned (s : State)
| Threw (s : State).

(** [setScrollLock(lock)]: [this.scrollLock = lock] *)
Definition setScrollLock (lock : Value) (s : State) : State :=
  mkState lock (rescrolling s) (host s) (trace s).

(** [removeScrollLock()]: [this.scrollLock = null] *)
Definition removeScrollLock (s : State) : State :=
  mkState Vnull (rescrolling s) (host s) (trace s).

(** [isScrollLocked()]: [!!this.scrollLock] *)
Definition isScrollLocked (s : State) : bool := ToBoolean (scrollLock s).

(** [shouldRescroll()]: [this.isScrollLocked() && this.scrollLock.when()];
    [None] when calling [when] throws a TypeError. *)
Definition shouldRescroll (s : State) : option bool :=
  if isScrollLocked s then
    match member_when (scrollLock s) with
    | Some when => Some (when (host s))
    | None => None
    end
  else Some false.

(** [rescroll()]:
<<
    if (this.shouldRescroll()) {
      this.rescrolling = true;
      this.target.scrollTop = this.scrollLock.at();
    }
>> *)
Definition rescroll (s : State) : Outcome :=
  let s0 := mkState (scrollLock s) (rescrolling s) (host s)
                    (Called_rescroll :: trace s) in
  match shouldRescroll s0 with
  | None => Threw s0
  | Some false => Returned s0
  | Some true =>
      let s1 := mkState (scrollLock s0) true (host s0) (trace s0) in
      match member_at (scrollLock s1) with
      | Some at_ =>
          let v := at_ (host s1) in
          Returned
            (mkState (scrollLock s1) (rescrolling s1)
               (with_target (mkTarget v (clientHeight (target (host s1)))
                                      (scrollHeight (target (host s1))))
                            (host s1))
               (Wrote in_rescroll v :: trace s1))
      | None => Threw s1
      end
  end.

(** [n] calls of [rescroll()] in a row, up to the first that throws. *)
Fixpoint rescrolls (n : nat) (s : State) : Outcome :=
  match n with
  | O => Returned s
  | S n' =>
      match rescroll s with
      | Returned s' => rescrolls n' s'
      | Threw s' => Threw s'
      end
  end.

End Untyped.

(** A state of the engine model, with its slot as a value. *)
Definition untyped (s : State) : Untyped.State :=
  Untyped.mkState (lock_value (scrollLock (self s)))
                  (rescrolling (self s)) (host s) (trace s).

(** ** Predicates on states and traces *)

(** Running [m] keeps the invariant [I]. *)
Definition preserves {A} (I : State -> Prop) (m : M A) : Prop :=
  forall s, I s -> I (exec m s).

(** The flag is only ever up after a write by [rescroll] that no scroll
    notification has followed yet. *)
Definition flag_justified (s : State) : Prop :=
  rescrolling (self s) = true -> wrote_since_scroll (trace s) = true.




(** [this.interval] holds [v], on a browser that has [MutationObserver]. *)
Definition holds_period (v : num) (s : State) : Prop :=
  interval (self s) = v /\ MutationObserver (host s) = true.

(** The number of 'load' listeners registered on [image]. *)
Definition listeners_on (image : nat) (ls : list nat) : nat :=
  List.length (filter (Nat.eqb image) ls).

(** The images [addImageListeners] attaches a listener to for one added
    node: the node itself when its [tagName] is ['IMG'], then every
    descendant that [getElementsByTagName('img')] returns. *)
Definition listened (node : Node) : list nat :=
  (match is_IMG node with Some image => [image] | None => [] end)
  ++ (match getElementsByTagName_img node with
      | Some childImages => childImages
      | None => []
      end).

(** The images [addImageListeners] comes across, in the order it
    attaches listeners to them. *)
Definition encountered (mutations : list MutationRecord) : list nat :=
  flat_map (fun mutation => flat_map listened (addedNodes mutation)) mutations.

(** Nothing is subscribed yet on a host with (or without)
    [MutationObserver] whose next timer handle is [timer]. *)
Definition pristine (mo : bool) (timer : positive) (h : Host) : Prop :=
  MutationObserver h = mo /\ observing h = false
  /\ nextTimer h = timer /\ pollTimers h = [].

(** The engine is fully subscribed: both listeners registered, and the
    observer connected or, without [MutationObserver], the polling timer
    [handle] running. *)
Definition live (mo : bool) (handle : num) (h : Host) : Prop :=
  scrollListener h = true /\ resizeListener h = true
  /\ observing h = mo /\ pollTimers h = (if mo then [] else [handle]).

Definition is_close (e : Step) : bool :=
  match e with Call_close => true | _ => false end.

(** Notifications that are not scroll events, and page changes. *)
Definition notification (e : Step) : bool :=
  match e with
  | Resize | Mutation _ | Load _ | Tick _ | Layout _ => true
  | _ => false
  end.

(** The timers started, newest first, as (period, handle). *)
Fixpoint timers_started (tr : list Effect) : list (num * num) :=
  match tr with
  | [] => []
  | SetInterval period handle :: tr' => (period, handle) :: timers_started tr'
  | _ :: tr' => timers_started tr'
  end.

(** ** Scenarios *)

(** On a double-density screen, three pixels short of the end. *)
Definition retina_page : Host :=
  page (mkTarget 0 100 103) (Some 2) true 1%positive.

(** A page with 200 units of content in a 100-unit viewport, scrolled to
    the top, on a browser that has [MutationObserver]. *)
Definition long_page : Host :=
  page (mkTarget 0 100 200) None true 1%positive.

(** A log scrolled to its end: 200 units of content, the 100-unit
    viewport showing the last 100. *)
Definition chat_page : Host :=
  page (mkTarget 100 100 200) None true 1%positive.

(** The same log after 50 more units of content arrived below. *)
Definition chat_grown : State :=
  exec (step (Layout (mkTarget 100 100 250)))
       (new_Scrollinga chat_page (mkOptions None Pundefined)).

(** A reader 50 units into a 200-unit log, engine constructed with
    [position: 50] (no lock). *)
Definition reading : State :=
  new_Scrollinga (page (mkTarget 0 100 200) None true 1%positive)
                 (mkOptions None (Pnumber 50)).

(** The user has scrolled a finished log back to its end, nothing locked. *)
Definition back_at_bottom : State :=
  exec (run [Call_removeScrollLock])
       (new_Scrollinga chat_page (mkOptions None Pundefined)).


(** The same image element is added to the log, taken out and added
    again before it has loaded: two mutation batches name it. *)
Definition image_added_twice : State :=
  exec (run [Mutation [mkMutation [Element 1 true "img" []]];
             Mutation [mkMutation [Element 1 true "img" []]]])
       (new_Scrollinga chat_page (mkOptions None Pundefined)).

(** * Properties *)

(** ** Arithmetic helpers *)

Lemma Qltb_lt (x y : num) : Qltb x y = true <-> x < y.
Proof.
  unfold Qltb. rewrite negb_true_iff.
  destruct (Qle_bool y x) eqn:E.
  - apply Qle_bool_iff in E. split; [discriminate | intro H; exfalso; lra].
  - split; [intros _ | reflexivity].
    apply Qnot_le_lt. intro H. apply Qle_bool_iff in H. congruence.
Qed.

Lemma inject_Z_sub (a b : Z) : inject_Z (a - b) == inject_Z a - inject_Z b.
Proof.
  unfold Z.sub. rewrite inject_Z_plus, inject_Z_opp. reflexivity.
Qed.

Lemma Qfloor_bounds (x : Q) :
  inject_Z (Qfloor x) <= x /\ x < inject_Z (Qfloor x) + 1.
Proof.
  split; [apply Qfloor_le |].
  pose proof (Qlt_floor x) as H. rewrite inject_Z_plus in H. exact H.
Qed.

Lemma Qdiv_cancel (x r : Q) : 0 < r -> (x / r) * r == x.
Proof. intro H. field. intro E. rewrite E in H. discriminate. Qed.

(** ** Rounding to the nearest integer *)
Lemma rne_floor (q : Q) : (Qfloor q <= rne q <= Qfloor q + 1)%Z.
Proof.
  unfold rne. destruct (Qcompare (q - inject_Z (Qfloor q)) (1 # 2)); [| lia | lia].
  destruct (Z.even (Qfloor q)); lia.
Qed.

Lemma rne_lower (q : Q) (z : Z) : inject_Z z <= q -> (z <= rne q)%Z.
Proof.
  intro H. apply Qfloor_resp_le in H. rewrite Qfloor_Z in H.
  pose proof (rne_floor q). lia.
Qed.

Lemma rne_upper (q : Q) (z : Z) : q <= inject_Z z -> (rne q <= z)%Z.
Proof.
  intro H. pose proof (rne_floor q) as [_ Hu].
  pose proof (Qfloor_resp_le _ _ H) as Hf. rewrite Qfloor_Z in Hf.
  destruct (Z.eq_dec (Qfloor q) z) as [E | E]; [| lia].
  unfold rne. pose proof (Qfloor_le q) as Hl. rewrite E in *.
  assert (Hq : q - inject_Z z < 1 # 2) by lra.
  rewrite Qlt_alt in Hq. rewrite Hq. lia.
Qed.

Lemma rne_Z (z : Z) : rne (inject_Z z) = z.
Proof.
  pose proof (rne_lower (inject_Z z) z ltac:(lra)).
  pose proof (rne_upper (inject_Z z) z ltac:(lra)). lia.
Qed.

Lemma rne_mono (p q : Q) : p <= q -> (rne p <= rne q)%Z.
Proof.
  intro H. pose proof (Qfloor_resp_le _ _ H) as Hf.
  pose proof (rne_floor p) as [_ Hp]. pose proof (rne_floor q) as [Hq _].
  destruct (Z.eq_dec (Qfloor p) (Qfloor q)) as [E | E]; [| lia].
  unfold rne. rewrite E.
  destruct (Qcompare (p - inject_Z (Qfloor q)) (1 # 2)) eqn:Cp;
    destruct (Qcompare (q - inject_Z (Qfloor q)) (1 # 2)) eqn:Cq;
    try (destruct (Z.even (Qfloor q))); try lia; exfalso;
    repeat match goal with
           | C : Qcompare _ _ = Eq |- _ => apply <- Qeq_alt in C
           | C : Qcompare _ _ = Lt |- _ => apply <- Qlt_alt in C
           | C : Qcompare _ _ = Gt |- _ => apply <- Qgt_alt in C
           end; lra.
Qed.

(** ** Powers of two *)
Lemma two_neq_0 : ~ 2 == 0.
Proof. discriminate. Qed.

Lemma pow2_pos (e : Z) : 0 < pow2 e.
Proof. apply Qpower_0_lt. reflexivity. Qed.

Lemma pow2_add (a b : Z) : pow2 (a + b) == pow2 a * pow2 b.
Proof. apply Qpower_plus, two_neq_0. Qed.

Lemma pow2_le (a b : Z) : (a <= b)%Z -> pow2 a <= pow2 b.
Proof. intro H. apply Qpower_le_compat_l; [exact H | discriminate]. Qed.

Lemma pow2_lt_inv (a b : Z) : pow2 a < pow2 b -> (a < b)%Z.
Proof. intro H. apply (Qpower_lt_compat_l_inv 2); [exact H | reflexivity]. Qed.

Lemma pow2_Z (e : Z) : (0 <= e)%Z -> pow2 e == inject_Z (2 ^ e).
Proof. intro H. unfold pow2. rewrite Zpower_Qpower by exact H. reflexivity. Qed.

Lemma pow2_succ (a : Z) : pow2 (a + 1) == 2 * pow2 a.
Proof. rewrite pow2_add. change (pow2 1) with 2. ring. Qed.

Lemma div_pow2 (x : Q) (e : Z) : x / pow2 e * pow2 e == x.
Proof. field. pose proof (pow2_pos e). lra. Qed.

(** ** The binary logarithm *)
Lemma flog2_spec (x : Q) :
  0 < x -> pow2 (flog2 x) <= x /\ x < pow2 (flog2 x + 1).
Proof.
  intro Hx. destruct x as [p q]. unfold flog2. cbn [Qnum Qden].
  assert (Hp : (0 < p)%Z).
  { unfold Qlt in Hx. cbn in Hx. lia. }
  set (a := Z.log2 p). set (b := Z.log2 (Z.pos q)).
  pose proof (Z.log2_spec p Hp) as [Ha1 Ha2]. fold a in Ha1, Ha2.
  pose proof (Z.log2_spec (Z.pos q) ltac:(lia)) as [Hb1 Hb2].
  fold b in Hb1, Hb2.
  assert (Ha0 : (0 <= a)%Z) by apply Z.log2_nonneg.
  assert (Hb0 : (0 <= b)%Z) by apply Z.log2_nonneg.
  rewrite Zle_Qle, <- pow2_Z in Ha1, Hb1 by assumption.
  replace (Z.succ a) with (a + 1)%Z in Ha2 by lia.
  replace (Z.succ b) with (b + 1)%Z in Hb2 by lia.
  rewrite Zlt_Qlt, <- pow2_Z, pow2_succ in Ha2, Hb2 by lia.
  pose proof (pow2_pos a) as Pa. pose proof (pow2_pos b) as Pb.
  assert (Hl : pow2 (a - b) * pow2 b == pow2 a).
  { rewrite <- pow2_add. replace (a - b + b)%Z with a by lia. reflexivity. }
  assert (Hx' : (p # q) * inject_Z (Z.pos q) == inject_Z p).
  { rewrite (Qmake_Qdiv p q). field. discriminate. }
  pose proof (pow2_pos (a - b)) as Pl.
  set (X := p # q) in *. set (P := inject_Z p) in *.
  set (D := inject_Z (Z.pos q)) in *.
  set (A := pow2 a) in *. set (B := pow2 b) in *. set (L := pow2 (a - b)) in *.
  destruct (Qle_bool L X) eqn:T.
  - apply Qle_bool_iff in T. split; [exact T |].
    rewrite pow2_succ. fold L. nra.
  - assert (T' : X < L).
    { apply Qnot_le_lt. intro C. apply Qle_bool_iff in C. congruence. }
    replace (a - b - 1 + 1)%Z with (a - b)%Z by lia. fold L.
    split; [| exact T'].
    assert (Hm : 2 * pow2 (a - b - 1) == L).
    { rewrite <- pow2_succ. replace (a - b - 1 + 1)%Z with (a - b)%Z by lia.
      reflexivity. }
    pose proof (pow2_pos (a - b - 1)). nra.
Qed.

Lemma flog2_unique (x : Q) (a : Z) :
  pow2 a <= x -> x < pow2 (a + 1) -> flog2 x = a.
Proof.
  intros H1 H2.
  assert (Hx : 0 < x) by (pose proof (pow2_pos a); lra).
  destruct (flog2_spec x Hx) as [F1 F2].
  assert ((a < flog2 x + 1)%Z) by (apply pow2_lt_inv; lra).
  assert ((flog2 x < a + 1)%Z) by (apply pow2_lt_inv; lra).
  lia.
Qed.

Lemma flog2_mono (x y : Q) : 0 < x -> x <= y -> (flog2 x <= flog2 y)%Z.
Proof.
  intros Hx Hxy.
  destruct (flog2_spec x Hx) as [F1 _].
  destruct (flog2_spec y ltac:(lra)) as [_ G2].
  assert ((flog2 x < flog2 y + 1)%Z) by (apply pow2_lt_inv; lra).
  lia.
Qed.

Lemma ulp_exponent_mono (x y : Q) :
  0 < x -> x <= y -> (ulp_exponent x <= ulp_exponent y)%Z.
Proof.
  intros Hx Hxy. pose proof (flog2_mono x y Hx Hxy). unfold ulp_exponent. lia.
Qed.

(** ** Rounding to a double

    The scaled significand [x / 2^e] stays below [2^53], and reaches
    [2^52] unless [x] is subnormal. *)
Lemma significand_lt (x : Q) :
  0 < x -> x / pow2 (ulp_exponent x) < inject_Z (2 ^ 53).
Proof.
  intro Hx. destruct (flog2_spec x Hx) as [_ F2].
  set (e := ulp_exponent x).
  assert (He : (flog2 x + 1 <= e + 53)%Z) by (unfold e, ulp_exponent; lia).
  apply pow2_le in He. pose proof (pow2_add e 53) as Ea.
  pose proof (pow2_Z 53 ltac:(lia)) as E53.
  pose proof (pow2_pos e). pose proof (div_pow2 x e).
  set (s := x / pow2 e) in *. set (T := inject_Z (2 ^ 53)) in *.
  set (U := pow2 53) in *. set (V := pow2 (e + 53)) in *.
  set (W := pow2 (flog2 x + 1)) in *. nra.
Qed.

Lemma significand_ge (x : Q) :
  0 < x -> (-1074 < ulp_exponent x)%Z ->
  inject_Z (2 ^ 52) <= x / pow2 (ulp_exponent x).
Proof.
  intros Hx Hn. destruct (flog2_spec x Hx) as [F1 _].
  set (e := ulp_exponent x) in *.
  assert (He : (flog2 x = e + 52)%Z) by (unfold e, ulp_exponent in *; lia).
  rewrite He in F1. pose proof (pow2_add e 52) as Ea.
  pose proof (pow2_Z 52 ltac:(lia)) as E52.
  pose proof (pow2_pos e). pose proof (div_pow2 x e).
  set (s := x / pow2 e) in *. set (T := inject_Z (2 ^ 52)) in *.
  set (U := pow2 52) in *. set (V := pow2 (e + 52)) in *. nra.
Qed.

Lemma fl_pos_nonneg (x : Q) : 0 < x -> 0 <= fl_pos x.
Proof.
  intro Hx. unfold fl_pos. pose proof (pow2_pos (ulp_exponent x)) as P.
  assert (H : (0 <= rne (x / pow2 (ulp_exponent x)))%Z).
  { apply rne_lower. pose proof (div_pow2 x (ulp_exponent x)).
    set (s := x / pow2 (ulp_exponent x)) in *. change (inject_Z 0) with 0. nra. }
  rewrite Zle_Qle in H. change (inject_Z 0) with 0 in H.
  set (m := inject_Z (rne (x / pow2 (ulp_exponent x)))) in *. nra.
Qed.

Lemma fl_pos_mono (x y : Q) : 0 < x -> x <= y -> fl_pos x <= fl_pos y.
Proof.
  intros Hx Hxy. assert (Hy : 0 < y) by lra.
  pose proof (ulp_exponent_mono x y Hx Hxy) as He.
  unfold fl_pos. set (ex := ulp_exponent x) in *. set (ey := ulp_exponent y) in *.
  pose proof (pow2_pos ex) as Px. pose proof (pow2_pos ey) as Py.
  destruct (Z.eq_dec ex ey) as [E | E].
  - rewrite <- E in *.
    assert (Hs : x / pow2 ex <= y / pow2 ex).
    { pose proof (div_pow2 x ex). pose proof (div_pow2 y ex).
      set (sx := x / pow2 ex) in *. set (sy := y / pow2 ex) in *. nra. }
    apply rne_mono in Hs. rewrite Zle_Qle in Hs.
    set (mx := inject_Z (rne (x / pow2 ex))) in *.
    set (my := inject_Z (rne (y / pow2 ex))) in *. nra.
  - assert (Hlt : (ex + 1 <= ey)%Z) by lia.
    assert (Hn : (-1074 < ey)%Z).
    { unfold ex, ulp_exponent in Hlt. lia. }
    pose proof (significand_ge y Hy Hn) as Gy. fold ey in Gy.
    apply rne_lower in Gy. rewrite Zle_Qle in Gy.
    pose proof (significand_lt x Hx) as Lx. fold ex in Lx.
    apply Qlt_le_weak, rne_upper in Lx. rewrite Zle_Qle in Lx.
    apply pow2_le in Hlt. rewrite pow2_succ in Hlt.
    change (inject_Z (2 ^ 53)) with (2 * inject_Z (2 ^ 52)) in Lx.
    assert (0 < inject_Z (2 ^ 52)) by reflexivity.
    set (mx := inject_Z (rne (x / pow2 ex))) in *.
    set (my := inject_Z (rne (y / pow2 ey))) in *.
    set (T := inject_Z (2 ^ 52)) in *.
    assert (mx * pow2 ex <= 2 * T * pow2 ex) by nra.
    assert (T * pow2 ey <= my * pow2 ey) by nra.
    assert (2 * T * pow2 ex <= T * pow2 ey) by nra.
    lra.
Qed.

Lemma Qnum_sign (x : Q) :
  match Qnum x with
  | Z0 => x == 0
  | Zpos _ => 0 < x
  | Zneg _ => x < 0
  end.
Proof. destruct x as [[|p|p] q]; unfold Qeq, Qlt; cbn; lia. Qed.

Lemma fl_zero (x : Q) : x == 0 -> fl x = 0.
Proof.
  intro H. unfold fl. pose proof (Qnum_sign x).
  destruct (Qnum x); [reflexivity | lra | lra].
Qed.

Lemma fl_positive (x : Q) : 0 < x -> fl x = fl_pos x.
Proof.
  intro H. unfold fl. pose proof (Qnum_sign x).
  destruct (Qnum x); [lra | reflexivity | lra].
Qed.

Lemma fl_negative (x : Q) : x < 0 -> fl x = - fl_pos (- x).
Proof.
  intro H. unfold fl. pose proof (Qnum_sign x).
  destruct (Qnum x); [lra | lra | reflexivity].
Qed.

Lemma fl_mono (x y : Q) : x <= y -> fl x <= fl y.
Proof.
  intro H.
  destruct (Q_dec x 0) as [[Hx | Hx] | Hx];
    destruct (Q_dec y 0) as [[Hy | Hy] | Hy];
    rewrite ?(fl_negative x), ?(fl_positive x), ?(fl_zero x),
            ?(fl_negative y), ?(fl_positive y), ?(fl_zero y) by assumption;
    try lra.
  - pose proof (fl_pos_mono (- y) (- x) ltac:(lra) ltac:(lra)). lra.
  - pose proof (fl_pos_nonneg (- x) ltac:(lra)).
    pose proof (fl_pos_nonneg y Hy). lra.
  - pose proof (fl_pos_nonneg (- x) ltac:(lra)). lra.
  - apply fl_pos_mono; assumption.
  - pose proof (fl_pos_nonneg y Hy). lra.
Qed.

#[global] Instance fl_comp : Proper (Qeq ==> Qeq) fl.
Proof.
  intros x y H. apply Qle_antisym; apply fl_mono; lra.
Qed.

Lemma rne_comp (p q : Q) : p == q -> rne p = rne q.
Proof.
  intro H. apply Z.le_antisymm; apply rne_mono; lra.
Qed.

Lemma fl_pos_comp (x y : Q) : 0 < x -> x == y -> fl_pos x == fl_pos y.
Proof.
  intros Hx H. apply Qle_antisym; apply fl_pos_mono; lra.
Qed.

Lemma ulp_exponent_min (x : Q) : (-1074 <= ulp_exponent x)%Z.
Proof. unfold ulp_exponent. lia. Qed.

Lemma fl_pos_fix_lt (m e : Z) :
  (0 < m < 2 ^ 53)%Z -> (-1074 <= e)%Z ->
  fl_pos (inject_Z m * pow2 e) == inject_Z m * pow2 e.
Proof.
  intros [Hm0 Hm] He.
  pose proof (pow2_pos e) as Pe.
  rewrite Zlt_Qlt in Hm0, Hm. change (inject_Z 0) with 0 in Hm0.
  set (y := inject_Z m * pow2 e).
  assert (Hy : 0 < y) by (unfold y; nra).
  destruct (flog2_spec y Hy) as [F1 _].
  assert (Hf : (flog2 y < e + 53)%Z).
  { apply pow2_lt_inv. pose proof (pow2_add e 53) as Ea.
    pose proof (pow2_Z 53 ltac:(lia)) as E53.
    assert (Ey : y == inject_Z m * pow2 e) by reflexivity.
    generalize dependent y. intros y Hy F1 Ey.
    set (M := inject_Z m) in *.
    set (T := inject_Z (2 ^ 53)) in *. set (U := pow2 53) in *.
    set (V := pow2 (e + 53)) in *. set (W := pow2 (flog2 y)) in *.
    set (Pw := pow2 e) in *.
    nra. }
  unfold fl_pos. set (ey := ulp_exponent y).
  assert (Hey : (ey <= e)%Z) by (unfold ey, ulp_exponent; lia).
  set (d := (e - ey)%Z).
  assert (Hd : (0 <= d)%Z) by (unfold d; lia).
  assert (Ed : pow2 e == inject_Z (2 ^ d) * pow2 ey).
  { rewrite <- pow2_Z, <- pow2_add by exact Hd.
    replace (d + ey)%Z with e by (unfold d; lia). reflexivity. }
  assert (Es : y / pow2 ey == inject_Z (m * 2 ^ d)).
  { unfold y. rewrite inject_Z_mult, Ed. field.
    pose proof (pow2_pos ey). lra. }
  rewrite (rne_comp _ _ Es), rne_Z, inject_Z_mult.
  unfold y. rewrite Ed. ring.
Qed.

Lemma fl_pos_fix (m e : Z) :
  (0 < m <= 2 ^ 53)%Z -> (-1074 <= e)%Z ->
  fl_pos (inject_Z m * pow2 e) == inject_Z m * pow2 e.
Proof.
  intros [Hm0 Hm] He.
  destruct (Z.eq_dec m (2 ^ 53)) as [E | E].
  - subst m.
    assert (Ey : inject_Z (2 ^ 53) * pow2 e == inject_Z (2 ^ 52) * pow2 (e + 1)).
    { rewrite pow2_succ. change (inject_Z (2 ^ 53)) with (2 * inject_Z (2 ^ 52)).
      ring. }
    assert (Hy : 0 < inject_Z (2 ^ 53) * pow2 e)
      by (apply Qmult_lt_0_compat; [reflexivity | apply pow2_pos]).
    rewrite (fl_pos_comp _ _ Hy Ey).
    rewrite fl_pos_fix_lt by lia. symmetry. exact Ey.
  - apply fl_pos_fix_lt; lia.
Qed.

Lemma Qmult_neg_pos (a b : Q) : a < 0 -> 0 < b -> a * b < 0.
Proof. intros. nra. Qed.

Lemma Qmult_pos_pos (a b : Q) : 0 < a -> 0 < b -> 0 < a * b.
Proof. intros. nra. Qed.

Lemma fl_fix (m e : Z) :
  (- 2 ^ 53 <= m <= 2 ^ 53)%Z -> (-1074 <= e)%Z ->
  fl (inject_Z m * pow2 e) == inject_Z m * pow2 e.
Proof.
  intros Hm He. pose proof (pow2_pos e) as Pe.
  destruct (Z.lt_trichotomy m 0) as [Hn | [Hz | Hp]].
  - assert (Hm' : inject_Z m < 0) by (change 0 with (inject_Z 0);
                                      rewrite <- Zlt_Qlt; exact Hn).
    pose proof (Qmult_neg_pos _ _ Hm' Pe) as Hx.
    rewrite fl_negative by exact Hx.
    assert (E : - (inject_Z m * pow2 e) == inject_Z (- m) * pow2 e)
      by (rewrite inject_Z_opp; ring).
    assert (Hx' : 0 < - (inject_Z m * pow2 e)).
    { clear - Hx. set (t := inject_Z m * pow2 e) in *. lra. }
    rewrite (fl_pos_comp _ _ Hx' E), fl_pos_fix by lia.
    rewrite inject_Z_opp. ring.
  - subst m. rewrite fl_zero by (change (inject_Z 0) with 0; ring).
    change (inject_Z 0) with 0. ring.
  - assert (Hm' : 0 < inject_Z m) by (change 0 with (inject_Z 0);
                                      rewrite <- Zlt_Qlt; exact Hp).
    rewrite fl_positive by (apply Qmult_pos_pos; assumption).
    apply fl_pos_fix; lia.
Qed.

Lemma fl_Z (z : Z) :
  (- 2 ^ 53 <= z <= 2 ^ 53)%Z -> fl (inject_Z z) == inject_Z z.
Proof.
  intro H. pose proof (fl_fix z 0 H ltac:(lia)) as F.
  change (pow2 0) with 1 in F. rewrite Qmult_1_r in F. exact F.
Qed.

Lemma fl_half (z : Z) :
  (- 2 ^ 53 <= z <= 2 ^ 53)%Z -> fl (inject_Z z / 2) == inject_Z z / 2.
Proof.
  intro H. pose proof (fl_fix z (-1) H ltac:(lia)) as F.
  change (pow2 (-1)) with (/ 2) in F. exact F.
Qed.

Lemma significand_range (x : Q) :
  0 < x -> (0 <= rne (x / pow2 (ulp_exponent x)) <= 2 ^ 53)%Z.
Proof.
  intro Hx. split.
  - apply rne_lower. change (inject_Z 0) with 0.
    pose proof (pow2_pos (ulp_exponent x)). pose proof (div_pow2 x (ulp_exponent x)).
    set (s := x / pow2 (ulp_exponent x)) in *. nra.
  - apply rne_upper, Qlt_le_weak, significand_lt, Hx.
Qed.

Lemma fl_idempotent (x : Q) : fl (fl x) == fl x.
Proof.
  destruct (Q_dec x 0) as [[Hx | Hx] | Hx].
  - rewrite (fl_negative x Hx). unfold fl_pos.
    pose proof (significand_range (- x) ltac:(lra)) as [R1 R2].
    set (m := rne (- x / pow2 (ulp_exponent (- x)))) in *.
    assert (E : - (inject_Z m * pow2 (ulp_exponent (- x)))
                == inject_Z (- m) * pow2 (ulp_exponent (- x)))
      by (rewrite inject_Z_opp; ring).
    rewrite E. apply fl_fix; [lia | apply ulp_exponent_min].
  - rewrite (fl_positive x Hx). unfold fl_pos.
    pose proof (significand_range x Hx) as [R1 R2].
    apply fl_fix; [lia | apply ulp_exponent_min].
  - rewrite (fl_zero x Hx). reflexivity.
Qed.

Lemma fl_Z_integer (z : Z) : exists k : Z, fl (inject_Z z) == inject_Z k.
Proof.
  destruct (Z_le_gt_dec (Z.abs z) (2 ^ 53)) as [H | H].
  - exists z. apply fl_Z. lia.
  - assert (big : forall y : Z, (2 ^ 53 < y)%Z ->
                  exists k, fl_pos (inject_Z y) == inject_Z k).
    { intros y Hy. rewrite Zlt_Qlt in Hy.
      assert (Hy0 : 0 < inject_Z y).
      { assert (0 < inject_Z (2 ^ 53)) by reflexivity. lra. }
      destruct (flog2_spec _ Hy0) as [_ F2].
      assert (Hf : (53 < flog2 (inject_Z y) + 1)%Z).
      { apply pow2_lt_inv. pose proof (pow2_Z 53 ltac:(lia)). lra. }
      unfold fl_pos. set (e := ulp_exponent (inject_Z y)).
      assert (He : (1 <= e)%Z) by (unfold e, ulp_exponent; lia).
      exists (rne (inject_Z y / pow2 e) * 2 ^ e)%Z.
      rewrite inject_Z_mult.
      apply Qmult_comp; [reflexivity | apply pow2_Z; lia]. }
    destruct (Z_lt_le_dec z 0) as [Hn | Hp].
    + destruct (big (- z)%Z ltac:(lia)) as [k Hk].
      exists (- k)%Z.
      assert (Hz : inject_Z z < 0) by (change 0 with (inject_Z 0);
                                       rewrite <- Zlt_Qlt; exact Hn).
      rewrite (fl_negative _ Hz), inject_Z_opp.
      rewrite <- Hk, inject_Z_opp. reflexivity.
    + destruct (big z ltac:(lia)) as [k Hk]. exists k.
      assert (Hz : 0 < inject_Z z).
      { change 0 with (inject_Z 0). rewrite <- Zlt_Qlt. 
        assert (0 < 2 ^ 53)%Z by reflexivity. lia. }
      rewrite (fl_positive _ Hz). exact Hk.
Qed.

(** ** The at-bottom predicate *)

Lemma isScrollDown_unfold (h : Host) :
  isScrollDown h = true <->
  fl (inject_Z
        (Qfloor (fl (fl (scrollHeight (target h)) / pixelRatio h))
         - Qfloor (fl (fl (clientHeight (target h) + scrollTop (target h))
                       / pixelRatio h))))
  < pixelRatio h.
Proof. unfold isScrollDown. apply Qltb_lt. Qed.

Lemma Qdiv_le_compat (x y r : Q) : 0 < r -> x <= y -> x / r <= y / r.
Proof.
  intros Hr H. pose proof (Qdiv_cancel x r Hr). pose proof (Qdiv_cancel y r Hr).
  nra.
Qed.

Lemma fl_0 : fl 0 = 0.
Proof. reflexivity. Qed.

Lemma two_51 : (2 ^ 51 = 2251799813685248)%Z.
Proof. reflexivity. Qed.

Lemma two_53 : (2 ^ 53 = 9007199254740992)%Z.
Proof. reflexivity. Qed.

Ltac zify_powers := pose proof two_51; pose proof two_53.

(** Rounding does not cross an integer of at most 53 bits. *)
Lemma fl_ge_Z (y : Q) (z : Z) :
  (- 2 ^ 53 <= z <= 2 ^ 53)%Z -> inject_Z z <= y -> inject_Z z <= fl y.
Proof. intros Hz H. rewrite <- (fl_Z z Hz). apply fl_mono, H. Qed.

Lemma fl_le_Z (y : Q) (z : Z) :
  (- 2 ^ 53 <= z <= 2 ^ 53)%Z -> y <= inject_Z z -> fl y <= inject_Z z.
Proof. intros Hz H. rewrite <- (fl_Z z Hz). apply fl_mono, H. Qed.

(** The floored quotient of a value between [0] and [2^51], computed in
    doubles, lies between the floor and the ceiling of the exact one. *)
Lemma floored_quotient (q : Q) :
  0 <= q -> q <= inject_Z (2 ^ 51) ->
  (Qfloor q <= Qfloor (fl q) <= Qceiling q)%Z /\ (Qceiling q <= 2 ^ 51)%Z
  /\ (0 <= Qfloor q)%Z.
Proof.
  intros H0 H1. zify_powers.
  assert (Hf0 : (0 <= Qfloor q)%Z).
  { apply Qfloor_resp_le in H0. exact H0. }
  assert (Hc1 : (Qceiling q <= 2 ^ 51)%Z).
  { apply Qceiling_resp_le in H1. rewrite Qceiling_Z in H1. exact H1. }
  pose proof (Qle_floor_ceiling q) as Hfc.
  pose proof (Qfloor_le q) as Hfl. pose proof (Qle_ceiling q) as Hce.
  rewrite <- Zle_Qle in Hfc.
  assert (B1 : inject_Z (Qfloor q) <= fl q) by (apply fl_ge_Z; [lia | exact Hfl]).
  assert (B2 : fl q <= inject_Z (Qceiling q)) by (apply fl_le_Z; [lia | exact Hce]).
  apply Qfloor_resp_le in B1, B2. rewrite Qfloor_Z in B1, B2.
  repeat split; assumption.
Qed.

(** C1 (as the code has it).  Let [r] be the pixel ratio, positive and
    at most [2^51], on a target whose metrics are doubles and whose
    [clientHeight + scrollTop] is a double as well (the addition is
    exact) between [0] and [2^51 * r].  Then the current
    [isScrollDown], which compares
    [floor(scrollHeight / r) - floor((clientHeight + scrollTop) / r)]
    with [r] in double arithmetic, is true whenever the gap is at most
    [r * (ceil r - 3/2)] and also whenever it is [0], and is false
    whenever the gap is [r * (ceil r + 1)] or more: the tolerance grows
    with the pixel ratio, but is not one device pixel.  The older
    [isScrollDown] is true exactly when the gap is [0]. *)
Theorem isScrollDown_tolerance (h : Host) :
  let r := pixelRatio h in
  let below := clientHeight (target h) + scrollTop (target h) in
  0 < r -> r <= inject_Z (2 ^ 51) -> double r ->
  double (clientHeight (target h)) -> double (scrollTop (target h)) ->
  double (scrollHeight (target h)) -> double below ->
  0 <= below -> below / r <= inject_Z (2 ^ 51) ->
  (gap h <= r * (inject_Z (Qceiling r) - (3 # 2)) -> isScrollDown h = true)
  /\ (gap h == 0 -> isScrollDown h = true)
  /\ (isScrollDown h = true -> gap h < r * (inject_Z (Qceiling r) + 1))
  /\ (Legacy.isScrollDown h = true <-> gap h == 0).
Proof.
  cbv zeta. unfold double, gap.
  set (r := pixelRatio h). set (sh := scrollHeight (target h)).
  set (x := clientHeight (target h) + scrollTop (target h)).
  intros Hr Hr51 _ _ _ Dsh Dx Hx0 Hx51. zify_powers.
  assert (Ea : fl (fl sh / r) == fl (sh / r)) by (rewrite Dsh; reflexivity).
  assert (Eb : fl (fl x / r) == fl (x / r)) by (rewrite Dx; reflexivity).
  assert (Hq0 : 0 <= x / r).
  { pose proof (Qdiv_cancel x r Hr). set (q := x / r) in *. nra. }
  destruct (floored_quotient (x / r) Hq0 Hx51) as ([Fb1 Fb2] & Hc51 & Hf0).
  pose proof (Qlt_floor (x / r)) as Hfl. rewrite inject_Z_plus in Hfl.
  pose proof (Qceiling_lt (x / r)) as Hce. rewrite inject_Z_sub in Hce.
  pose proof (Qle_ceiling r) as K1. pose proof (Qceiling_lt r) as K2.
  rewrite inject_Z_sub in K2.
  change (inject_Z 1) with 1 in Hfl, Hce, K2.
  assert (K3 : (1 <= Qceiling r <= 2 ^ 51)%Z).
  { split.
    - assert (Hk : inject_Z 0 < inject_Z (Qceiling r))
        by (change (inject_Z 0) with 0; lra).
      rewrite <- Zlt_Qlt in Hk. lia.
    - apply Qceiling_resp_le in Hr51. rewrite Qceiling_Z in Hr51. exact Hr51. }
  pose proof (Qdiv_cancel sh r Hr) as Esh.
  pose proof (Qdiv_cancel x r Hr) as Ex.
  set (K := Qceiling r) in *.
  set (FB := Qfloor (fl (x / r))) in *.
  repeat split.
  - (* a gap within the tolerance *)
    intro Hg. apply isScrollDown_unfold. fold r sh x.
    rewrite Ea, Eb. fold FB.
    assert (Ha : fl (sh / r) <= inject_Z (2 * (FB + K) - 1) / 2).
    { rewrite <- fl_half by lia. apply fl_mono.
      rewrite inject_Z_sub, inject_Z_mult, inject_Z_plus.
      change (inject_Z 2) with 2. change (inject_Z 1) with 1.
      rewrite Zle_Qle in Fb1.
      set (q := x / r) in *. set (a := sh / r) in *.
      set (iFB := inject_Z FB) in *. set (iK := inject_Z K) in *.
      set (fq := inject_Z (Qfloor q)) in *.
      assert (Hd : a - q <= iK - (3 # 2)) by nra.
      assert (E2 : (2 * (iFB + iK) - 1) / 2 == iFB + iK - (1 # 2)) by field.
      rewrite E2. lra. }
    assert (HFA : (Qfloor (fl (sh / r)) <= FB + K - 1)%Z).
    { assert (Hlt : fl (sh / r) < inject_Z (FB + K)).
      { rewrite inject_Z_sub, inject_Z_mult in Ha.
        change (inject_Z 2) with 2 in Ha. change (inject_Z 1) with 1 in Ha.
        set (n := inject_Z (FB + K)) in *.
        assert (E2 : (2 * n - 1) / 2 == n - (1 # 2)) by field.
        rewrite E2 in Ha. lra. }
      pose proof (Qfloor_le (fl (sh / r))) as Hf.
      assert (Hz : inject_Z (Qfloor (fl (sh / r))) < inject_Z (FB + K)) by lra.
      rewrite <- Zlt_Qlt in Hz. lia. }
    eapply Qle_lt_trans; [apply (fl_le_Z _ (K - 1)); [lia |] |].
    + rewrite <- Zle_Qle. lia.
    + rewrite inject_Z_sub. change (inject_Z 1) with 1. lra.
  - (* an exact fit *)
    intro Hg. apply isScrollDown_unfold. fold r sh x.
    eapply Qle_lt_trans; [| exact Hr].
    rewrite <- fl_0. apply fl_mono. change 0 with (inject_Z 0).
    rewrite <- Zle_Qle.
    assert (Hm : fl (fl sh / r) <= fl (fl x / r)).
    { apply fl_mono, Qdiv_le_compat; [exact Hr |]. apply fl_mono. lra. }
    apply Qfloor_resp_le in Hm. lia.
  - (* at the bottom: the gap is bounded *)
    intro Hd. apply isScrollDown_unfold in Hd. fold r sh x in Hd.
    rewrite Ea, Eb in Hd. fold FB in Hd.
    assert (HD : (Qfloor (fl (sh / r)) - FB <= K - 1)%Z).
    { destruct (Z_le_gt_dec (Qfloor (fl (sh / r)) - FB) (K - 1)) as [L | G];
        [exact L | exfalso].
      assert (inject_Z K <= fl (inject_Z (Qfloor (fl (sh / r)) - FB))).
      { apply fl_ge_Z; [lia |]. rewrite <- Zle_Qle. lia. }
      lra. }
    assert (Hlt : sh / r < inject_Z (FB + K)).
    { apply Qnot_le_lt. intro C.
      apply (fl_ge_Z (sh / r) (FB + K)) in C; [| lia].
      apply Qfloor_resp_le in C. rewrite Qfloor_Z in C. lia. }
    rewrite Zle_Qle in Fb2. rewrite inject_Z_plus in Hlt.
    set (q := x / r) in *. set (a := sh / r) in *.
    set (iFB := inject_Z FB) in *. set (iK := inject_Z K) in *.
    set (cq := inject_Z (Qceiling q)) in *.
    assert (a - q < iK + 1) by lra.
    nra.
  - (* the older version *)
    unfold Legacy.isScrollDown. fold sh. intro Hl.
    apply Qeq_bool_iff in Hl.
    assert (E : scrollTop (target h) + clientHeight (target h) == x)
      by (unfold x; ring).
    rewrite E, Dx, Dsh in Hl. lra.
  - unfold Legacy.isScrollDown. fold sh. intro Hg.
    apply Qeq_bool_iff.
    assert (E : scrollTop (target h) + clientHeight (target h) == x)
      by (unfold x; ring).
    rewrite E, Dx, Dsh. lra.
Qed.

(** At pixel ratio 1, when the rounded height and the rounded sum are
    whole numbers, the predicate compares the two. *)
Lemma isScrollDown_ratio_one (h : Host) (total below : Z) :
  pixelRatio h == 1 ->
  fl (scrollHeight (target h)) == inject_Z total ->
  fl (clientHeight (target h) + scrollTop (target h)) == inject_Z below ->
  (isScrollDown h = true <-> (total <= below)%Z).
Proof.
  intros Hr Hs Hx. zify_powers. rewrite isScrollDown_unfold.
  assert (Once : forall v k, fl v == inject_Z k ->
                 Qfloor (fl (fl v / pixelRatio h)) = k).
  { intros v k Hv. rewrite <- (Qfloor_Z k). apply Qfloor_comp.
    transitivity (fl (fl v)); [| rewrite fl_idempotent; exact Hv].
    apply fl_comp. rewrite Hr. field. }
  rewrite (Once _ _ Hs), (Once _ _ Hx).
  assert (Hone : forall y, y < pixelRatio h <-> y < 1)
    by (intro y; rewrite Hr; reflexivity).
  rewrite Hone.
  split; intro H1.
  - destruct (Z_le_gt_dec total below) as [L | G]; [exact L | exfalso].
    assert (Hge : inject_Z 1 <= fl (inject_Z (total - below))).
    { apply fl_ge_Z; [lia |]. rewrite <- Zle_Qle. lia. }
    change (inject_Z 1) with 1 in Hge. lra.
  - apply Qle_lt_trans with (y := inject_Z 0); [| reflexivity].
    apply fl_le_Z; [lia |]. rewrite <- Zle_Qle. lia.
Qed.

(** C1, counterexample: with pixel ratio 2 and the viewport 3 units
    above the end of the content, [isScrollDown] answers true although
    the gap is not smaller than the pixel ratio. *)
Lemma isScrollDown_not_gap_below_ratio :
  ~ (isScrollDown retina_page = true <-> gap retina_page < pixelRatio retina_page).
Proof.
  intros [H _]. specialize (H eq_refl). vm_compute in H. discriminate.
Qed.

(** Half a pixel short of the end at pixel ratio 1: both versions of the
    predicate answer false, although the gap is below one pixel. *)
Lemma isScrollDown_half_pixel :
  let h := page (mkTarget (1 # 2) 100 101) None true 1%positive in
  isScrollDown h = false /\ Legacy.isScrollDown h = false /\ gap h < 1.
Proof. repeat split. Qed.

(** Rounding matters: at the double nearest to 1.1, with 605 units of
    content and the viewport ending at 603, the quotient 605 / 1.1
    rounds up to 550 and the predicate is false; computed exactly, the
    quotient stays below 550 and the comparison would hold. *)
Lemma isScrollDown_rounds :
  let r := fl (11 # 10) in
  let h := page (mkTarget 3 600 605) (Some r) true 1%positive in
  isScrollDown h = false
  /\ Qltb (inject_Z (Qfloor (605 / r) - Qfloor ((600 + 3) / r))) r = true.
Proof. split; vm_compute; reflexivity. Qed.

(** The tolerance bounds on a double-density screen, one unit short of
    the end: within the tolerance, so at the bottom, and the gap is
    below the upper bound. *)
Lemma isScrollDown_tolerance_witness :
  let h := page (mkTarget 0 100 101) (Some 2) true 1%positive in
  gap h <= pixelRatio h * (inject_Z (Qceiling (pixelRatio h)) - (3 # 2))
  /\ isScrollDown h = true
  /\ gap h < pixelRatio h * (inject_Z (Qceiling (pixelRatio h)) + 1)
  /\ Legacy.isScrollDown h = false.
Proof.
  intro h.
  assert (H1 : 0 < pixelRatio h) by reflexivity.
  assert (H2 : pixelRatio h <= inject_Z (2 ^ 51)) by discriminate.
  assert (Dr : double (pixelRatio h)) by reflexivity.
  assert (Dc : double (clientHeight (target h))) by reflexivity.
  assert (Dt : double (scrollTop (target h))) by reflexivity.
  assert (H3 : double (scrollHeight (target h))) by reflexivity.
  assert (H4 : double (clientHeight (target h) + scrollTop (target h)))
    by reflexivity.
  assert (H5 : 0 <= clientHeight (target h) + scrollTop (target h))
    by discriminate.
  assert (H6 : (clientHeight (target h) + scrollTop (target h)) / pixelRatio h
               <= inject_Z (2 ^ 51)) by discriminate.
  destruct (isScrollDown_tolerance h H1 H2 Dr Dc Dt H3 H4 H5 H6)
    as (Hin & _ & Hout & _).
  assert (Hg : gap h <= pixelRatio h
                        * (inject_Z (Qceiling (pixelRatio h)) - (3 # 2)))
    by discriminate.
  split; [exact Hg |]. split; [exact (Hin Hg) |].
  split; [exact (Hout (Hin Hg)) | reflexivity].
Defined.

(** ** Reasoning about the monad *)

Lemma exec_bind {A B} (m : M A) (k : A -> M B) (s : State) :
  exec (bind m k) s = exec (k (eval m s)) (exec m s).
Proof. unfold exec, eval, bind. destruct (m s). reflexivity. Qed.

Lemma eval_bind {A B} (m : M A) (k : A -> M B) (s : State) :
  eval (bind m k) s = eval (k (eval m s)) (exec m s).
Proof. unfold exec, eval, bind. destruct (m s). reflexivity. Qed.

Lemma exec_forEach_cons {A} (a : A) (l : list A) (f : A -> M unit) s :
  exec (forEach (a :: l) f) s = exec (forEach l f) (exec (f a) s).
Proof. simpl. apply exec_bind. Qed.

Lemma exec_forEach_app {A} (l1 l2 : list A) (f : A -> M unit) s :
  exec (forEach (l1 ++ l2) f) s = exec (forEach l2 f) (exec (forEach l1 f) s).
Proof.
  revert s. induction l1 as [|a l1 IH]; intro s; [reflexivity |].
  simpl app. rewrite !exec_forEach_cons. apply IH.
Qed.

Section Preserves.
Variable I : State -> Prop.

Lemma preserves_ret {A} (a : A) : preserves I (ret a).
Proof. intros s H. exact H. Qed.

Lemma preserves_bind {A B} (m : M A) (k : A -> M B) :
  preserves I m -> (forall a, preserves I (k a)) -> preserves I (bind m k).
Proof. intros Hm Hk s H. rewrite exec_bind. apply Hk, Hm, H. Qed.

Lemma preserves_this {B} (k : Scrollinga -> M B) :
  (forall x, preserves I (k x)) -> preserves I (bind this k).
Proof. intros Hk. apply preserves_bind; [intros s H; exact H | exact Hk]. Qed.

Lemma preserves_window {B} (k : Host -> M B) :
  (forall h, preserves I (k h)) -> preserves I (bind window k).
Proof. intros Hk. apply preserves_bind; [intros s H; exact H | exact Hk]. Qed.

Lemma preserves_if {A} (b : bool) (m1 m2 : M A) :
  preserves I m1 -> preserves I m2 -> preserves I (if b then m1 else m2).
Proof. destruct b; auto. Qed.

Lemma preserves_forEach {A} (l : list A) (f : A -> M unit) :
  (forall a, preserves I (f a)) -> preserves I (forEach l f).
Proof.
  intro Hf. induction l as [|a l IH]; [apply preserves_ret |].
  simpl. apply preserves_bind; auto.
Qed.
End Preserves.

Ltac preserve_with leaf :=
  repeat first
    [ assumption
    | leaf
    | apply preserves_ret
    | apply preserves_this; intro
    | apply preserves_window; intro
    | apply preserves_if
    | apply preserves_forEach; intro
    | match goal with
      | |- preserves _ (match ?x with _ => _ end) => destruct x
      end
    | apply preserves_bind; [| intro] ].

(** ** What [rescroll] does *)

Lemma exec_rescroll (s : State) :
  exec rescroll s =
  match scrollLock (self s) with
  | Some l =>
      if lock_when l (host s) then
        mkState (mkSelf (interval (self s)) (Some l) true (observer (self s)))
                (with_target (mkTarget (lock_at l (host s))
                                       (clientHeight (target (host s)))
                                       (scrollHeight (target (host s))))
                             (host s))
                (Wrote in_rescroll (lock_at l (host s))
                 :: Called_rescroll :: trace s)
      else mkState (self s) (host s) (Called_rescroll :: trace s)
  | None => mkState (self s) (host s) (Called_rescroll :: trace s)
  end.
Proof.
  destruct s as [[i [l|] r o] h tr];
    unfold exec, rescroll, shouldRescroll, isScrollLocked, bind, ret, emit,
           this, window; cbn; [| reflexivity].
  destruct (lock_when l h); reflexivity.
Qed.

(** ** Invariants of every execution *)

(** An invariant kept by the seven building blocks below is kept by
    every public method and every notification handler. *)
Section Reachability.
Variable I : State -> Prop.
Hypothesis I_setScrollLock : forall l, preserves I (setScrollLock l).
Hypothesis I_rescroll : preserves I rescroll.
Hypothesis I_onScroll : preserves I onScroll.
Hypothesis I_close : preserves I close.
Hypothesis I_layout : forall t, preserves I (modifyHost (with_target t)).
Hypothesis I_listen : forall i, preserves I (listenToImageLoad i).
Hypothesis I_detach : forall i, preserves I (removeLoadListener i).

Lemma I_step (e : Step) : preserves I (step e).
Proof.
  destruct e; cbn [step];
    unfold setScrollLockAtBottom, setScrollLockAtTop,
           setScrollLockAtCurrentPosition, removeScrollLock, onResize,
           onMutation, addImageListeners, dispatchLoad, imageLoadListener;
    preserve_with ltac:(first [ apply I_setScrollLock | apply I_layout
                              | apply I_listen | apply I_detach ]).
Qed.

Lemma I_run (es : list Step) : preserves I (run es).
Proof. apply preserves_forEach, I_step. Qed.
End Reachability.

(** ** Who writes the scroll offset *)

(** A primitive that leaves the invariant's footprint alone. *)
Ltac trace_leaf := intros ? ?; cbn; assumption.

Ltac unfold_methods :=
  unfold setScrollLockAtBottom, setScrollLockAtTop,
         setScrollLockAtCurrentPosition, removeScrollLock, setScrollLock,
         onScroll, onResize, close, setupListeners, listenToImageLoad,
         removeLoadListener, rescroll, shouldRescroll, isScrollLocked,
         write_scrollTop, setInterval, clearInterval, addEventListener,
         removeEventListener, set_interval, set_scrollLock, set_rescrolling,
         set_observer.

Lemma writes_outside_rescroll_writes (tr : list Effect) :
  writes_outside_rescroll tr =
  map snd (filter (fun w => match fst w with
                            | in_setInitialScrollLock => true
                            | in_rescroll => false
                            end) (writes tr)).
Proof.
  induction tr as [| e tr IH]; [reflexivity |].
  destruct e as [[|] v | | | | | | | | | |]; cbn; rewrite ?IH; reflexivity.
Qed.

Lemma outside_run (k : list num) (es : list Step) :
  preserves (fun s => writes_outside_rescroll (trace s) = k) (run es).
Proof.
  apply I_run; intros; unfold_methods; preserve_with trace_leaf.
Qed.

Lemma outside_setupListeners (k : list num) :
  preserves (fun s => writes_outside_rescroll (trace s) = k) setupListeners.
Proof. unfold_methods; preserve_with trace_leaf. Qed.

Lemma outside_rescroll (k : list num) :
  preserves (fun s => writes_outside_rescroll (trace s) = k) rescroll.
Proof. unfold_methods; preserve_with trace_leaf. Qed.

Lemma outside_setInitialScrollLock (position : Position) (s : State) :
  writes_outside_rescroll (trace (exec (setInitialScrollLock position) s)) =
  match position with
  | Pnumber n => n :: writes_outside_rescroll (trace s)
  | _ => writes_outside_rescroll (trace s)
  end.
Proof.
  destruct position as [n | str |]; [reflexivity | |];
    unfold setInitialScrollLock;
    repeat match goal with |- context [if ?b then _ else _] => destruct b end;
    (eapply (preserves_bind (fun s' => writes_outside_rescroll (trace s') = _));
     [ unfold_methods; preserve_with trace_leaf
     | intro; apply outside_rescroll
     | reflexivity ]).
Qed.

(** C2 (as the code has it).  In every execution, from construction
    through any sequence of method calls, notifications and page
    changes, the only write of the scroll offset made outside
    [rescroll] is the constructor's direct write of a numeric
    [position]; with any other [position] there is none. *)
Theorem scrollTop_written_outside_rescroll_only_initially
    (h : Host) (o : Options) (es : list Step) :
  writes_outside_rescroll (trace (exec (run es) (new_Scrollinga h o))) =
  match opt_position o with
  | Pnumber n => [n]
  | _ => []
  end.
Proof.
  apply outside_run.
  unfold new_Scrollinga, constructor.
  rewrite !exec_bind.
  apply outside_rescroll, outside_setupListeners.
  rewrite outside_setInitialScrollLock.
  destruct (opt_position o); reflexivity.
Qed.

(** C2, counterexample: constructing with [position: 5] writes the
    scroll offset in [setInitialScrollLock], not in [rescroll]. *)
Lemma numeric_position_written_outside_rescroll :
  let s := new_Scrollinga long_page (mkOptions None (Pnumber 5)) in
  writes (trace s) = [(in_setInitialScrollLock, 5)]
  /\ ~ Forall (fun w => fst w = in_rescroll) (writes (trace s)).
Proof.
  split; [reflexivity |].
  intro H. inversion H as [| w ws Hw _]. discriminate Hw.
Qed.

(** ** Setting and clearing the lock *)

Lemma exec_setScrollLock (l : option ScrollLock) (s : State) :
  exec (setScrollLock l) s =
  mkState (mkSelf (interval (self s)) l (rescrolling (self s)) (observer (self s)))
          (host s) (trace s).
Proof. reflexivity. Qed.

Lemma rescroll_unlocked (s : State) :
  scrollLock (self s) = None ->
  exec rescroll s = mkState (self s) (host s) (Called_rescroll :: trace s).
Proof. intro H. rewrite exec_rescroll, H. reflexivity. Qed.

Lemma rescrolls_unlocked (n : nat) (s : State) :
  scrollLock (self s) = None ->
  let s' := exec (forEach (repeat tt n) (fun _ => rescroll)) s in
  self s' = self s /\ host s' = host s /\ writes (trace s') = writes (trace s).
Proof.
  revert s. induction n as [|n IH]; intros s H; [repeat split |].
  cbn [repeat]. rewrite exec_forEach_cons, (rescroll_unlocked s H).
  specialize (IH (mkState (self s) (host s) (Called_rescroll :: trace s)) H).
  exact IH.
Qed.

(** On the engine model, where the slot holds a lock or nothing:
    [setScrollLock(l)] makes [l] the active lock, whatever it was
    before, and [isScrollLocked()] then answers true exactly when [l] is
    a lock.  [setScrollLock(null)] is the same state change as
    [removeScrollLock()], and after it any number of [rescroll] calls
    change neither the engine nor the target and write nothing. *)
Theorem setScrollLock_replaces_lock
    (l : option ScrollLock) (s : State) (n : nat) :
  let s' := exec (setScrollLock l) s in
  let cleared := exec (setScrollLock None) s in
  let later := exec (forEach (repeat tt n) (fun _ => rescroll)) cleared in
  scrollLock (self s') = l
  /\ (eval isScrollLocked s' = true <-> l <> None)
  /\ cleared = exec removeScrollLock s
  /\ self later = self cleared
  /\ host later = host s
  /\ writes (trace later) = writes (trace s).
Proof.
  cbv zeta. split; [reflexivity |]. split.
  { destruct l; cbn; split; congruence. }
  split; [reflexivity |].
  apply (rescrolls_unlocked n (exec (setScrollLock None) s)). reflexivity.
Qed.

(** *** The slot as the code has it: any value *)

Lemma ToBoolean_false (v : Value) : ToBoolean v = false <-> falsy v.
Proof.
  unfold falsy. split.
  - destruct v as [| | b | [n |] | z | str | | w a]; cbn; intro H;
      try discriminate; auto.
    + destruct b; [discriminate | auto].
    + apply negb_false_iff, Qeq_bool_iff in H. eauto 10.
    + apply negb_false_iff, Z.eqb_eq in H. subst. auto 10.
    + apply negb_false_iff, String.eqb_eq in H. subst. auto 10.
  - intros [H | [H | [H | [H | [[n [H Hn]] | [H | H]]]]]]; subst;
      try reflexivity.
    cbn. apply negb_false_iff, Qeq_bool_iff, Hn.
Qed.

Lemma Untyped_rescroll_falsy (s : Untyped.State) :
  ToBoolean (Untyped.scrollLock s) = false ->
  Untyped.rescroll s
  = Untyped.Returned
      (Untyped.mkState (Untyped.scrollLock s) (Untyped.rescrolling s)
                       (Untyped.host s) (Called_rescroll :: Untyped.trace s)).
Proof.
  intro H. unfold Untyped.rescroll, Untyped.shouldRescroll,
             Untyped.isScrollLocked.
  cbn [Untyped.scrollLock]. rewrite H. reflexivity.
Qed.

Lemma repeat_snoc {A} (a : A) (n : nat) (l : list A) :
  repeat a n ++ a :: l = repeat a (S n) ++ l.
Proof.
  induction n as [| n IH]; [reflexivity |].
  cbn [repeat app]. rewrite IH. reflexivity.
Qed.

Lemma Untyped_rescrolls_falsy (n : nat) (s : Untyped.State) :
  ToBoolean (Untyped.scrollLock s) = false ->
  Untyped.rescrolls n s
  = Untyped.Returned
      (Untyped.mkState (Untyped.scrollLock s) (Untyped.rescrolling s)
                       (Untyped.host s)
                       (repeat Called_rescroll n ++ Untyped.trace s)).
Proof.
  revert s. induction n as [| n IH]; intros s H.
  - destruct s. reflexivity.
  - cbn [Untyped.rescrolls]. rewrite (Untyped_rescroll_falsy s H).
    rewrite IH by exact H.
    cbn [Untyped.scrollLock Untyped.rescrolling Untyped.host Untyped.trace].
    rewrite repeat_snoc. reflexivity.
Qed.

(** A truthy value without a callable [when] is locked, and [rescroll]
    throws on it: such a value never drives the engine. *)
Lemma Untyped_rescroll_truthy_no_when (l : Value) (s : Untyped.State) :
  ToBoolean l = true -> member_when l = None ->
  Untyped.isScrollLocked (Untyped.setScrollLock l s) = true
  /\ Untyped.rescroll (Untyped.setScrollLock l s)
     = Untyped.Threw
         (Untyped.mkState l (Untyped.rescrolling s) (Untyped.host s)
                          (Called_rescroll :: Untyped.trace s)).
Proof.
  intros Ht Hw. split; [exact Ht |].
  unfold Untyped.rescroll, Untyped.shouldRescroll, Untyped.isScrollLocked.
  cbn [Untyped.scrollLock Untyped.setScrollLock]. rewrite Ht, Hw.
  reflexivity.
Qed.

(** A new lock whose [when()] holds drives the next [rescroll]. *)
Lemma Untyped_rescroll_new_lock
    (when : Host -> bool) (at_ : Host -> num) (s : Untyped.State) :
  when (Untyped.host s) = true ->
  Untyped.rescroll (Untyped.setScrollLock (Vobject (Some when) (Some at_)) s)
  = Untyped.Returned
      (Untyped.mkState (Vobject (Some when) (Some at_)) true
         (with_target
            (mkTarget (at_ (Untyped.host s))
                      (clientHeight (target (Untyped.host s)))
                      (scrollHeight (target (Untyped.host s))))
            (Untyped.host s))
         (Wrote in_rescroll (at_ (Untyped.host s))
          :: Called_rescroll :: Untyped.trace s)).
Proof.
  intro H. unfold Untyped.rescroll, Untyped.shouldRescroll,
             Untyped.isScrollLocked.
  cbn. rewrite H. reflexivity.
Qed.

(** The engine model is the untyped one on the values it keeps. *)
Lemma untyped_setScrollLock (l : option ScrollLock) (s : State) :
  untyped (exec (setScrollLock l) s)
  = Untyped.setScrollLock (lock_value l) (untyped s).
Proof. reflexivity. Qed.

Lemma untyped_removeScrollLock (s : State) :
  untyped (exec removeScrollLock s) = Untyped.removeScrollLock (untyped s).
Proof. reflexivity. Qed.

Lemma untyped_isScrollLocked (s : State) :
  eval isScrollLocked s = Untyped.isScrollLocked (untyped s).
Proof.
  unfold Untyped.isScrollLocked, untyped. cbn.
  destruct (scrollLock (self s)); reflexivity.
Qed.

Lemma untyped_rescroll (s : State) :
  Untyped.rescroll (untyped s) = Untyped.Returned (untyped (exec rescroll s)).
Proof.
  rewrite exec_rescroll.
  unfold Untyped.rescroll, Untyped.shouldRescroll, Untyped.isScrollLocked,
    untyped.
  destruct s as [[i [l |] r o] h tr]; cbn; [| reflexivity].
  destruct (lock_when l h); reflexivity.
Qed.

(** C10, counterexample: the number [0] is not null, and after
    [setScrollLock(0)] the engine is not locked. *)
Lemma setScrollLock_zero_not_locked :
  let l := Vnumber (Some 0) in
  let s := Untyped.setScrollLock l (untyped chat_grown) in
  ~ (Untyped.isScrollLocked s = true <-> l <> Vnull).
Proof.
  cbv zeta. intros [_ H].
  assert (E : Untyped.isScrollLocked
                (Untyped.setScrollLock (Vnumber (Some 0)) (untyped chat_grown))
              = true) by (apply H; discriminate).
  vm_compute in E. discriminate.
Qed.

(** C10 (as the code has it).  For every value [l], [setScrollLock(l)]
    stores exactly [l] and changes nothing else; [isScrollLocked()]
    then answers [!!l]: false exactly when [l] is one of [undefined],
    [null], [false], [0], [NaN], [0n] and the empty string, and true for
    every other value.  [setScrollLock(null)] is the same state change
    as [removeScrollLock()], and after storing a falsy value any number
    of [rescroll] calls return without changing the slot, the flag or
    the target and without a write. *)
Theorem setScrollLock_stores_any_value
    (l : Value) (s : Untyped.State) (n : nat) :
  let s' := Untyped.setScrollLock l s in
  Untyped.scrollLock s' = l
  /\ Untyped.rescrolling s' = Untyped.rescrolling s
  /\ Untyped.host s' = Untyped.host s
  /\ Untyped.trace s' = Untyped.trace s
  /\ Untyped.isScrollLocked s' = ToBoolean l
  /\ (Untyped.isScrollLocked s' = false <-> falsy l)
  /\ Untyped.setScrollLock Vnull s = Untyped.removeScrollLock s
  /\ (falsy l ->
      Untyped.rescrolls n s'
      = Untyped.Returned
          (Untyped.mkState l (Untyped.rescrolling s) (Untyped.host s)
             (repeat Called_rescroll n ++ Untyped.trace s))).
Proof.
  cbv zeta. repeat (split; [reflexivity |]).
  split; [apply ToBoolean_false |]. split; [reflexivity |].
  intro H. apply ToBoolean_false in H.
  apply (Untyped_rescrolls_falsy n (Untyped.setScrollLock l s)). exact H.
Qed.

(** After [setScrollLock(null)] on the grown log, two [rescroll] calls
    return and leave no write behind. *)
Lemma setScrollLock_stores_any_value_witness :
  let s := untyped chat_grown in
  falsy Vnull
  /\ Untyped.rescrolls 2 (Untyped.setScrollLock Vnull s)
     = Untyped.Returned
         (Untyped.mkState Vnull (Untyped.rescrolling s) (Untyped.host s)
            (Called_rescroll :: Called_rescroll :: Untyped.trace s)).
Proof.
  intro s.
  assert (F : falsy Vnull) by (right; left; reflexivity).
  split; [exact F |].
  destruct (setScrollLock_stores_any_value Vnull s 2)
    as (_ & _ & _ & _ & _ & _ & _ & H).
  exact (H F).
Defined.

(** ** Locking at the bottom *)

(** C7 (as the code has it).  With the bottom lock active, [rescroll]
    writes nothing when the viewport is at the bottom, and writes
    [scrollHeight] to the scroll offset when it is not. *)
Theorem bottom_lock_rescroll (s : State) :
  scrollLock (self s) = Some lockAtBottom ->
  writes (trace (exec rescroll s)) =
  if isScrollDown (host s) then writes (trace s)
  else (in_rescroll, scrollHeight (target (host s))) :: writes (trace s).
Proof.
  intro H. rewrite exec_rescroll, H. cbn [lock_when lock_at lockAtBottom].
  destruct (isScrollDown (host s)); reflexivity.
Qed.

(** C7, counterexample: bottom-locked and no longer at the bottom,
    [rescroll] does write (the new [scrollHeight]). *)
Lemma bottom_lock_writes_when_not_at_bottom :
  scrollLock (self chat_grown) = Some lockAtBottom
  /\ isScrollDown (host chat_grown) = false
  /\ writes (trace chat_grown) = []
  /\ writes (trace (exec rescroll chat_grown)) = [(in_rescroll, 250)].
Proof. repeat split. Qed.

(** The grown log: the bottom lock's rescroll writes the new height. *)
Lemma bottom_lock_rescroll_witness :
  writes (trace (exec rescroll chat_grown)) =
  (in_rescroll, scrollHeight (target (host chat_grown)))
    :: writes (trace chat_grown).
Proof. exact (bottom_lock_rescroll chat_grown eq_refl). Defined.

(** ** Locking at the current position *)

Lemma exec_setScrollLockAtCurrentPosition (s : State) :
  exec setScrollLockAtCurrentPosition s =
  mkState (mkSelf (interval (self s))
                  (Some (lockAtCurrentPosition (scrollHeight (target (host s)))))
                  (rescrolling (self s)) (observer (self s)))
          (host s) (trace s).
Proof. reflexivity. Qed.

(** [setScrollLockAtCurrentPosition] writes nothing itself; once the
    content has grown by [delta], whatever the scroll offset then is,
    the next [rescroll] sets it to [delta]. *)
Lemma lockAtCurrentPosition_rescroll (s : State) (delta top height : num) :
  let s1 := exec setScrollLockAtCurrentPosition s in
  let grown := mkTarget top height (scrollHeight (target (host s)) + delta) in
  let s3 := exec rescroll (exec (step (Layout grown)) s1) in
  trace s1 = trace s
  /\ host s1 = host s
  /\ scrollTop (target (host s3)) == delta
  /\ rescroll_calls (trace s3) = S (rescroll_calls (trace s)).
Proof.
  cbv zeta. rewrite exec_setScrollLockAtCurrentPosition.
  split; [reflexivity |]. split; [reflexivity |].
  rewrite exec_rescroll. cbn. split; [ring | reflexivity].
Qed.

(** C3, at the failing input: lock at the current position (offset 50),
    let 30 units of content arrive, deliver the mutation.  The lock call
    writes nothing, and the rescroll that follows moves the offset to
    30: neither the locked offset 50 nor 50 advanced by 30. *)
Theorem lockAtCurrentPosition_loses_offset :
  let locked := exec (step Call_setScrollLockAtCurrentPosition) reading in
  let final :=
    exec (run [Layout (mkTarget 50 100 230); Mutation []]) locked in
  scrollTop (target (host reading)) = 50
  /\ writes (trace locked) = writes (trace reading)
  /\ scrollTop (target (host final)) = 30
  /\ ~ scrollTop (target (host final)) == 50 + 30.
Proof. cbv zeta. repeat split. intro H. discriminate H. Qed.

(** ** The scroll handler *)

Lemma exec_onScroll (s : State) :
  exec onScroll s =
  let x := self s in
  let quiet l := mkSelf (interval x) l false (observer x) in
  if rescrolling x then
    mkState (quiet (scrollLock x)) (host s) (ScrollDelivered :: trace s)
  else if isScrollDown (host s) then
    match scrollLock x with
    | None =>
        mkState (quiet (Some lockAtBottom)) (host s)
                (Called_rescroll :: ScrollDelivered :: trace s)
    | Some l =>
        mkState (quiet (Some l)) (host s) (ScrollDelivered :: trace s)
    end
  else mkState (quiet None) (host s) (ScrollDelivered :: trace s).
Proof.
  destruct s as [[i l [|] o] h tr]; [reflexivity |].
  unfold exec, onScroll, setScrollLockAtBottom, rescroll, shouldRescroll,
         isScrollLocked, bind, ret, emit, this, window.
  cbn. destruct (isScrollDown h) eqn:E; destruct l as [l|]; cbn;
    rewrite ?E; reflexivity.
Qed.

Lemma lockAtBottom_not_lockAtTop : lockAtBottom <> lockAtTop.
Proof.
  intro H.
  assert (E : lock_at lockAtBottom long_page = lock_at lockAtTop long_page)
    by (rewrite H; reflexivity).
  discriminate E.
Qed.

(** C5.  A scroll notification that arrives with the [rescrolling] flag
    clear installs the bottom lock when the viewport is at the bottom
    and nothing is locked, clears whatever lock there is when the
    viewport is not at the bottom, and never installs the top lock: the
    top lock can only be active afterwards if it was active before. *)
Theorem onScroll_engages_only_at_bottom (s : State) :
  rescrolling (self s) = false ->
  let s' := exec onScroll s in
  (isScrollDown (host s) = true -> scrollLock (self s) = None ->
   scrollLock (self s') = Some lockAtBottom)
  /\ (isScrollDown (host s) = false -> scrollLock (self s') = None)
  /\ (scrollLock (self s') = Some lockAtTop ->
      scrollLock (self s) = Some lockAtTop).
Proof.
  intro Hflag. cbv zeta. rewrite exec_onScroll. cbv zeta. rewrite Hflag.
  destruct (isScrollDown (host s)); destruct (scrollLock (self s)) as [l|];
    cbn; repeat split; try congruence.
  intro H. exfalso. apply lockAtBottom_not_lockAtTop. congruence.
Qed.

(** Scrolling back to the end of the log re-engages the bottom lock. *)
Lemma onScroll_engages_only_at_bottom_witness :
  scrollLock (self (exec onScroll back_at_bottom)) = Some lockAtBottom.
Proof.
  exact (proj1 (onScroll_engages_only_at_bottom back_at_bottom eq_refl)
               eq_refl eq_refl).
Defined.

(** ** The [rescrolling] flag *)

Ltac state_leaf := intros [? ? ?] ?; cbn in *; assumption.

Lemma flag_rescroll : preserves flag_justified rescroll.
Proof.
  intros s H. rewrite exec_rescroll.
  destruct (scrollLock (self s)) as [l|]; [| exact H].
  destruct (lock_when l (host s)); [intros _; reflexivity | exact H].
Qed.

Lemma flag_onScroll : preserves flag_justified onScroll.
Proof.
  intros s _. rewrite exec_onScroll. cbv zeta.
  destruct (rescrolling (self s)); [discriminate |].
  destruct (isScrollDown (host s)); [| discriminate].
  destruct (scrollLock (self s)); discriminate.
Qed.

Lemma flag_run (es : list Step) : preserves flag_justified (run es).
Proof.
  pose proof flag_rescroll. pose proof flag_onScroll.
  apply I_run; intros; try assumption;
    unfold close, listenToImageLoad, removeLoadListener, clearInterval,
           removeEventListener;
    preserve_with state_leaf.
Qed.

Lemma flag_constructor (o : Options) :
  preserves flag_justified (constructor o).
Proof.
  pose proof flag_rescroll.
  unfold constructor, setInitialScrollLock, setScrollLockAtBottom,
         setScrollLockAtTop, setupListeners, setInterval, addEventListener,
         write_scrollTop.
  preserve_with state_leaf.
Qed.

Lemma flag_new_Scrollinga (h : Host) (o : Options) :
  flag_justified (new_Scrollinga h o).
Proof. apply flag_constructor. discriminate. Qed.

(** C6.  In every execution the [rescrolling] flag is up only if
    [rescroll] has written the scroll offset since the last scroll
    notification was handled, and [onScroll] always leaves it down,
    whichever of its branches runs. *)
Theorem rescrolling_only_between_write_and_scroll
    (h : Host) (o : Options) (es : list Step) :
  let s := exec (run es) (new_Scrollinga h o) in
  (rescrolling (self s) = true -> wrote_since_scroll (trace s) = true)
  /\ rescrolling (self (exec onScroll s)) = false.
Proof.
  cbv zeta. split.
  - apply flag_run, flag_new_Scrollinga.
  - rewrite exec_onScroll. cbv zeta.
    repeat match goal with |- context [if ?b then _ else _] => destruct b end;
      try reflexivity.
    destruct (scrollLock _); reflexivity.
Qed.

(** ** Teardown *)

Lemma exec_close (s : State) :
  exec close s =
  let x := self s in
  let h1 := if observer x then set_observing false (host s) else host s in
  let h2 :=
    if truthy (interval x) then
      set_timers (nextTimer h1)
                 (filter (fun t => negb (Qeq_bool t (interval x))) (pollTimers h1))
                 h1
    else h1 in
  mkState x
          (set_listener on_resize false (set_listener on_scroll false h2))
          (RemoveEventListener on_resize :: RemoveEventListener on_scroll
           :: (if truthy (interval x) then [ClearInterval (interval x)] else [])
           ++ (if observer x then [Disconnect] else [])
           ++ trace s).
Proof.
  destruct s as [[i l r o] h tr].
  unfold exec, close, clearInterval, removeEventListener, bind, ret, emit,
         modifyHost, this.
  cbn. destruct o; destruct (truthy i); reflexivity.
Qed.

















(** In observer mode [this.interval] still holds the polling period when
    [close()] runs, and the period is never falsy. *)
Lemma truthy_interval_or_default (o : Options) :
  truthy (interval_or_default o) = true.
Proof.
  unfold interval_or_default.
  destruct (opt_interval o) as [v|]; [| reflexivity].
  destruct (truthy v) eqn:E; [exact E | reflexivity].
Qed.

(** C9, at the failing input: an engine constructed with the defaults
    on a browser that has [MutationObserver] never starts a timer, yet
    its [close()] calls [window.clearInterval(100)], with the polling
    period as the handle. *)
Theorem close_clears_interval_in_observer_mode :
  let s := new_Scrollinga long_page (mkOptions None Pundefined) in
  existsb (fun e => match e with SetInterval _ _ => true | _ => false end)
          (trace s) = false
  /\ pollTimers (host s) = []
  /\ trace (exec close s) =
     [RemoveEventListener on_resize; RemoveEventListener on_scroll;
      ClearInterval 100; Disconnect] ++ trace s.
Proof. repeat split. Qed.

(** The fallback-mode teardown, for comparison: the timer started by
    the constructor is cancelled by its handle and no observer is
    disconnected. *)
Lemma close_in_fallback_mode :
  let s := new_Scrollinga (page (mkTarget 100 100 200) None false 7%positive)
                          (mkOptions None Pundefined) in
  pollTimers (host s) = [7]
  /\ trace (exec close s) =
     [RemoveEventListener on_resize; RemoveEventListener on_scroll;
      ClearInterval 7] ++ trace s
  /\ pollTimers (host (exec close s)) = [].
Proof. repeat split. Qed.

Lemma holds_period_rescroll v : preserves (holds_period v) rescroll.
Proof.
  intros s H. rewrite exec_rescroll.
  destruct (scrollLock (self s)) as [l|]; [| exact H].
  destruct (lock_when l (host s)); exact H.
Qed.

Lemma holds_period_constructor (o : Options) (h : Host) :
  MutationObserver h = true ->
  holds_period (interval_or_default o) (new_Scrollinga h o).
Proof.
  intro Hmo. unfold new_Scrollinga, constructor. rewrite !exec_bind.
  apply holds_period_rescroll.
  assert (H1 : holds_period (interval_or_default o)
                 (exec (setInitialScrollLock (opt_position o))
                       (exec (set_interval (interval_or_default o))
                             (mkState blank h [])))).
  { pose proof (holds_period_rescroll (interval_or_default o)).
    assert (P : preserves (holds_period (interval_or_default o))
                          (setInitialScrollLock (opt_position o))).
    { unfold setInitialScrollLock, setScrollLockAtBottom, setScrollLockAtTop,
             write_scrollTop.
      preserve_with state_leaf. }
    apply P. split; [reflexivity | exact Hmo]. }
  revert H1.
  generalize (exec (setInitialScrollLock (opt_position o))
                   (exec (set_interval (interval_or_default o))
                         (mkState blank h []))).
  intros [[i l r ob] h' tr] [Hi Hm]. cbn in Hi, Hm.
  unfold exec, setupListeners, addEventListener, bind, ret, emit, modifyHost,
         modifySelf, this, window, set_observer.
  cbn. rewrite Hm. cbn. split; [exact Hi | exact Hm].
Qed.

(** The same holds for every observer-mode engine: whatever the options,
    [close()] calls [clearInterval] with the polling period. *)
Lemma close_in_observer_mode (h : Host) (o : Options) :
  MutationObserver h = true ->
  In (ClearInterval (interval_or_default o))
     (trace (exec close (new_Scrollinga h o))).
Proof.
  intro Hmo. destruct (holds_period_constructor o h Hmo) as [Hi _].
  rewrite exec_close. cbv zeta. rewrite Hi, truthy_interval_or_default.
  cbn. right. right. left. reflexivity.
Qed.

(** ** Image-load listeners *)

Lemma listeners_on_app image l1 l2 :
  (listeners_on image (l1 ++ l2)
   = listeners_on image l1 + listeners_on image l2)%nat.
Proof. unfold listeners_on. rewrite filter_app, length_app. reflexivity. Qed.

Lemma listeners_on_detach image ls :
  listeners_on image (detach image ls) = pred (listeners_on image ls).
Proof.
  unfold listeners_on. induction ls as [|i ls IH]; [reflexivity |].
  cbn. rewrite (Nat.eqb_sym image i).
  destruct (Nat.eqb i image) eqn:E; [reflexivity |].
  cbn. rewrite (Nat.eqb_sym image i), E. exact IH.
Qed.

Lemma exec_listenToImageLoad (image : nat) (s : State) :
  exec (listenToImageLoad image) s =
  mkState (self s) (set_loadListeners (loadListeners (host s) ++ [image]) (host s))
          (AddLoadListener image :: trace s).
Proof. reflexivity. Qed.

Lemma listen_each (l : list nat) (s : State) :
  let s' := exec (forEach l listenToImageLoad) s in
  self s' = self s
  /\ loadListeners (host s') = loadListeners (host s) ++ l
  /\ rescroll_calls (trace s') = rescroll_calls (trace s).
Proof.
  revert s. induction l as [|i l IH]; intro s.
  - cbn. rewrite app_nil_r. repeat split.
  - cbv zeta. rewrite exec_forEach_cons, exec_listenToImageLoad.
    destruct (IH (mkState (self s)
                    (set_loadListeners (loadListeners (host s) ++ [i]) (host s))
                    (AddLoadListener i :: trace s))) as (E1 & E2 & E3).
    rewrite E1, E2, E3. cbn. rewrite <- app_assoc. repeat split.
Qed.

Lemma listen_node (node : Node) (s : State) :
  let s' :=
    exec ((match is_IMG node with
           | Some image => listenToImageLoad image
           | None => ret tt
           end) ;;
          match getElementsByTagName_img node with
          | Some childImages => forEach childImages listenToImageLoad
          | None => ret tt
          end) s in
  self s' = self s
  /\ loadListeners (host s') = loadListeners (host s) ++ listened node
  /\ rescroll_calls (trace s') = rescroll_calls (trace s).
Proof.
  cbv zeta. rewrite exec_bind. unfold listened.
  destruct (getElementsByTagName_img node) as [childImages |];
    destruct (is_IMG node) as [image |].
  - rewrite exec_listenToImageLoad.
    destruct (listen_each childImages
                (mkState (self s)
                   (set_loadListeners (loadListeners (host s) ++ [image])
                                      (host s))
                   (AddLoadListener image :: trace s))) as (E1 & E2 & E3).
    rewrite E1, E2, E3. cbn. rewrite <- app_assoc. repeat split.
  - exact (listen_each childImages s).
  - rewrite exec_listenToImageLoad. cbn. rewrite ?app_nil_r. repeat split.
  - cbn. rewrite ?app_nil_r. repeat split.
Qed.

Lemma exec_addImageListeners (mutations : list MutationRecord) (s : State) :
  let s' := exec (addImageListeners mutations) s in
  self s' = self s
  /\ loadListeners (host s') = loadListeners (host s) ++ encountered mutations
  /\ rescroll_calls (trace s') = rescroll_calls (trace s).
Proof.
  unfold addImageListeners, encountered. revert s.
  induction mutations as [|m ms IH]; intro s.
  - cbn. rewrite app_nil_r. repeat split.
  - cbv zeta. rewrite exec_forEach_cons. cbn [flat_map].
    assert (Hm : forall nodes s0,
               let s1 := exec (forEach nodes (fun node =>
                 (match is_IMG node with
                  | Some image => listenToImageLoad image
                  | None => ret tt
                  end) ;;
                 match getElementsByTagName_img node with
                 | Some childImages => forEach childImages listenToImageLoad
                 | None => ret tt
                 end)) s0 in
               self s1 = self s0
               /\ loadListeners (host s1)
                  = loadListeners (host s0) ++ flat_map listened nodes
               /\ rescroll_calls (trace s1) = rescroll_calls (trace s0)).
    { induction nodes as [|n ns IHn]; intro s0.
      - cbn. rewrite app_nil_r. repeat split.
      - cbv zeta. rewrite exec_forEach_cons. cbn [flat_map].
        destruct (listen_node n s0) as (E1 & E2 & E3).
        destruct (IHn (exec ((match is_IMG n with
                              | Some image => listenToImageLoad image
                              | None => ret tt
                              end) ;;
                             match getElementsByTagName_img n with
                             | Some childImages =>
                                 forEach childImages listenToImageLoad
                             | None => ret tt
                             end) s0)) as (F1 & F2 & F3).
        rewrite F1, F2, F3, E1, E2, E3, app_assoc. repeat split. }
    destruct (Hm (addedNodes m) s) as (E1 & E2 & E3).
    destruct (IH (exec (forEach (addedNodes m) (fun node =>
                 (match is_IMG node with
                  | Some image => listenToImageLoad image
                  | None => ret tt
                  end) ;;
                 match getElementsByTagName_img node with
                 | Some childImages => forEach childImages listenToImageLoad
                 | None => ret tt
                 end)) s)) as (F1 & F2 & F3).
    rewrite F1, F2, F3, E1, E2, E3, app_assoc. repeat split.
Qed.

Lemma exec_imageLoadListener (image : nat) (s : State) :
  let s' := exec (imageLoadListener image) s in
  loadListeners (host s') = detach image (loadListeners (host s))
  /\ rescroll_calls (trace s') = S (rescroll_calls (trace s)).
Proof.
  cbv zeta. unfold imageLoadListener. rewrite exec_bind, exec_rescroll.
  destruct (scrollLock (self s)) as [l|]; [| split; reflexivity].
  destruct (lock_when l (host s)); split; reflexivity.
Qed.

Lemma fire_each (image : nat) (l : list nat) (s : State) :
  let s' := exec (forEach l (fun _ => imageLoadListener image)) s in
  (listeners_on image (loadListeners (host s'))
   = listeners_on image (loadListeners (host s)) - List.length l)%nat
  /\ (rescroll_calls (trace s') = rescroll_calls (trace s) + List.length l)%nat.
Proof.
  revert s. induction l as [|i l IH]; intro s.
  - cbn. split; lia.
  - cbv zeta. rewrite exec_forEach_cons.
    destruct (exec_imageLoadListener image s) as [E1 E2].
    destruct (IH (exec (imageLoadListener image) s)) as [F1 F2].
    rewrite F1, F2, E1, E2, listeners_on_detach. cbn [List.length]. split; lia.
Qed.

Lemma exec_dispatchLoad (image : nat) (s : State) :
  let s' := exec (dispatchLoad image) s in
  (rescroll_calls (trace s')
   = rescroll_calls (trace s) + listeners_on image (loadListeners (host s)))%nat
  /\ listeners_on image (loadListeners (host s')) = 0%nat.
Proof.
  cbv zeta. unfold dispatchLoad. rewrite exec_bind.
  change (eval window s) with (host s). change (exec window s) with s.
  destruct (fire_each image (filter (Nat.eqb image) (loadListeners (host s))) s)
    as [E1 E2].
  fold (listeners_on image (loadListeners (host s))) in E1, E2.
  split; [exact E2 | rewrite E1; lia].
Qed.

(** C8 (as the code has it).  Handling a batch of mutations attaches one
    fresh load listener for every time an image element is come across
    among the added nodes and their img descendants.  A load
    notification on an image then calls [rescroll] once per listener
    attached to it (so exactly once for an image come across once), and
    every one of them detaches itself: a second load notification on the
    same image calls [rescroll] no more. *)
Theorem load_listener_fires_once_per_attachment
    (s : State) (mutations : list MutationRecord) (image : nat) :
  let s1 := exec (onMutation mutations) s in
  let s2 := exec (dispatchLoad image) s1 in
  let s3 := exec (dispatchLoad image) s2 in
  (listeners_on image (loadListeners (host s1))
   = listeners_on image (loadListeners (host s))
     + listeners_on image (encountered mutations))%nat
  /\ (rescroll_calls (trace s2)
      = rescroll_calls (trace s1)
        + listeners_on image (loadListeners (host s1)))%nat
  /\ listeners_on image (loadListeners (host s2)) = 0%nat
  /\ rescroll_calls (trace s3) = rescroll_calls (trace s2).
Proof.
  cbv zeta.
  set (s1 := exec (onMutation mutations) s).
  destruct (exec_dispatchLoad image s1) as [E1 E2].
  destruct (exec_dispatchLoad image (exec (dispatchLoad image) s1)) as [F1 _].
  split.
  - unfold s1, onMutation. rewrite exec_bind.
    destruct (exec_addImageListeners mutations (exec rescroll s)) as (_ & A & _).
    rewrite A, listeners_on_app. f_equal.
    rewrite exec_rescroll.
    destruct (scrollLock (self s)) as [l|]; [| reflexivity].
    destruct (lock_when l (host s)); reflexivity.
  - split; [exact E1 |]. split; [exact E2 |].
    rewrite F1, E2. lia.
Qed.

(** C8, counterexample: the two batches leave two listeners on the
    image, and its one load notification calls [rescroll] twice. *)
Lemma load_of_image_added_twice_rescrolls_twice :
  let s' := exec (step (Load 1%nat)) image_added_twice in
  listeners_on 1 (loadListeners (host image_added_twice)) = 2%nat
  /\ rescroll_calls (trace s')
     = (rescroll_calls (trace image_added_twice) + 2)%nat
  /\ rescroll_calls (trace s')
     <> (rescroll_calls (trace image_added_twice) + 1)%nat.
Proof. repeat split. vm_compute. discriminate. Qed.

(** An image inside an added element that is also reported on its own,
    as when a container is inserted and the image appended to it in the
    same turn of the event loop: again two listeners. *)
Lemma nested_image_reported_twice :
  encountered [mkMutation [Element 1 true "div" [Element 2 true "img" []]];
               mkMutation [Element 2 true "img" []]] = [2; 2]%nat.
Proof. reflexivity. Qed.

(** * Further properties of the engine *)

(** ** More on the at-bottom predicate *)

Lemma pixelRatio_host (t : Target) (h : Host) :
  pixelRatio (with_target t h) = pixelRatio h.
Proof. reflexivity. Qed.

(** The pixel ratio [isScrollDown] divides by is never zero. *)
Lemma pixelRatio_never_zero (h : Host) : ~ pixelRatio h == 0.
Proof.
  unfold pixelRatio. destruct (devicePixelRatio h) as [r|]; [| discriminate].
  destruct (Qeq_bool r 0) eqn:E; [discriminate |].
  intro H. apply Qeq_bool_iff in H. congruence.
Qed.

(** X1.  Where [window.devicePixelRatio] is absent, 0 or 1 and the
    target's metrics are whole pixels, each of them and the sum
    [clientHeight + scrollTop] of at most [2^53] in magnitude (so that
    they are doubles and the sum is exact), [isScrollDown] is true
    exactly when no content is left below the viewport:
    [scrollHeight <= clientHeight + scrollTop]. *)
Theorem isScrollDown_at_standard_density
    (h : Host) (top height total : Z) :
  devicePixelRatio h = None \/ devicePixelRatio h = Some 0
  \/ devicePixelRatio h = Some 1 ->
  target h = mkTarget (inject_Z top) (inject_Z height) (inject_Z total) ->
  (- 2 ^ 53 <= top <= 2 ^ 53)%Z ->
  (- 2 ^ 53 <= height <= 2 ^ 53)%Z ->
  (- 2 ^ 53 <= height + top <= 2 ^ 53)%Z ->
  (- 2 ^ 53 <= total <= 2 ^ 53)%Z ->
  (isScrollDown h = true <-> (total <= height + top)%Z).
Proof.
  intros Hd Ht _ _ Hsum Htotal.
  assert (Hr : pixelRatio h == 1).
  { unfold pixelRatio. destruct Hd as [E | [E | E]]; rewrite E; reflexivity. }
  apply isScrollDown_ratio_one; [exact Hr | |]; rewrite Ht;
    cbn [scrollTop clientHeight scrollHeight].
  - apply fl_Z, Htotal.
  - rewrite <- inject_Z_plus. apply fl_Z, Hsum.
Qed.

Lemma isScrollDown_at_standard_density_witness :
  isScrollDown chat_page = true <-> (200 <= 100 + 100)%Z.
Proof.
  apply (isScrollDown_at_standard_density chat_page 100 100 200);
    [left; reflexivity | reflexivity | vm_compute ..];
    split; discriminate.
Defined.

(** The floored quotients keep the order of the rounded operands. *)
Lemma floored_quotient_mono (x y r : Q) :
  0 < r -> x <= y ->
  (Qfloor (fl (fl x / r)) <= Qfloor (fl (fl y / r)))%Z.
Proof.
  intros Hr H.
  apply Qfloor_resp_le, fl_mono, Qdiv_le_compat; [exact Hr |].
  apply fl_mono, H.
Qed.





(** X3.  Being at the bottom is kept by scrolling further down: if
    [isScrollDown] holds at one scroll offset it holds at every larger
    one, the other metrics unchanged. *)
Theorem isScrollDown_monotone (h : Host) (top' : num) :
  0 < pixelRatio h ->
  isScrollDown h = true ->
  scrollTop (target h) <= top' ->
  isScrollDown
    (with_target (mkTarget top' (clientHeight (target h))
                           (scrollHeight (target h))) h) = true.
Proof.
  intros Hr Hd Hle. rewrite isScrollDown_unfold in *.
  rewrite pixelRatio_host. cbn [target with_target scrollTop clientHeight
                                scrollHeight].
  eapply Qle_lt_trans; [| exact Hd].
  apply fl_mono. rewrite <- Zle_Qle.
  assert (Hsum : clientHeight (target h) + scrollTop (target h)
                 <= clientHeight (target h) + top') by lra.
  pose proof (floored_quotient_mono _ _ (pixelRatio h) Hr Hsum).
  lia.
Qed.

Lemma isScrollDown_monotone_witness :
  isScrollDown
    (with_target (mkTarget 7 100 103) retina_page) = true.
Proof.
  apply (isScrollDown_monotone retina_page 7);
    [reflexivity | reflexivity | discriminate].
Defined.

(** X4.  On whole-pixel metrics at pixel ratio 1, with the viewport
    not past the end of the content, the two versions of
    [isScrollDown] (floored comparison and exact equality) agree. *)
Theorem isScrollDown_versions_agree (h : Host) (top height total : Z) :
  pixelRatio h == 1 ->
  target h = mkTarget (inject_Z top) (inject_Z height) (inject_Z total) ->
  (top + height <= total)%Z ->
  Legacy.isScrollDown h = isScrollDown h.
Proof.
  intros Hr Ht Hle.
  destruct (fl_Z_integer total) as [k1 Hk1].
  destruct (fl_Z_integer (height + top)) as [k2 Hk2].
  assert (Hs : fl (scrollHeight (target h)) == inject_Z k1)
    by (rewrite Ht; exact Hk1).
  assert (Hx : fl (clientHeight (target h) + scrollTop (target h))
               == inject_Z k2).
  { rewrite Ht. cbn [scrollTop clientHeight scrollHeight].
    rewrite <- inject_Z_plus. exact Hk2. }
  assert (Hord : (k2 <= k1)%Z).
  { rewrite Zle_Qle, <- Hk1, <- Hk2. apply fl_mono.
    rewrite <- Zle_Qle. lia. }
  pose proof (isScrollDown_ratio_one h k1 k2 Hr Hs Hx) as Hnew.
  assert (Hold : Legacy.isScrollDown h = true <-> (k1 <= k2)%Z).
  { unfold Legacy.isScrollDown. rewrite Qeq_bool_iff.
    assert (E : scrollTop (target h) + clientHeight (target h)
                == clientHeight (target h) + scrollTop (target h)) by ring.
    rewrite E, Hs, Hx. split; intro H.
    - unfold Qeq in H. cbn [Qnum Qden inject_Z] in H. lia.
    - assert (k2 = k1) by lia. subst. reflexivity. }
  destruct (Legacy.isScrollDown h), (isScrollDown h); try reflexivity; exfalso.
  - assert (true = true) as E by reflexivity.
    apply Hold, Hnew in E. discriminate.
  - assert (true = true) as E by reflexivity.
    apply Hnew, Hold in E. discriminate.
Qed.

Lemma isScrollDown_versions_agree_witness :
  Legacy.isScrollDown chat_page = isScrollDown chat_page.
Proof.
  apply (isScrollDown_versions_agree chat_page 100 100 200);
    [reflexivity | reflexivity | discriminate].
Defined.

(** ** Construction *)

Lemma rescroll_keeps_lock (s : State) :
  scrollLock (self (exec rescroll s)) = scrollLock (self s).
Proof.
  rewrite exec_rescroll. destruct (scrollLock (self s)) as [l|] eqn:E;
    [| exact E].
  destruct (lock_when l (host s)); [reflexivity | exact E].
Qed.

Lemma exec_setupListeners (s : State) :
  let h := host s in
  let handle := inject_Z (Z.pos (nextTimer h)) in
  self (exec setupListeners s)
  = (if MutationObserver h
     then mkSelf (interval (self s)) (scrollLock (self s))
                 (rescrolling (self s)) true
     else mkSelf handle (scrollLock (self s)) (rescrolling (self s))
                 (observer (self s)))
  /\ target (host (exec setupListeners s)) = target h
  /\ devicePixelRatio (host (exec setupListeners s)) = devicePixelRatio h
  /\ writes (trace (exec setupListeners s)) = writes (trace s)
  /\ timers_started (trace (exec setupListeners s))
     = (if MutationObserver h then [] else [(interval (self s), handle)])
       ++ timers_started (trace s).
Proof.
  destruct s as [[i l r o] h tr].
  unfold exec, setupListeners, setInterval, addEventListener, bind, ret, emit,
         modifyHost, modifySelf, this, window, set_observer, set_interval.
  cbn. destruct (MutationObserver h); repeat split.
Qed.

(** X5.  Constructing with a numeric [position] writes that number to
    the scroll offset, once and directly; the engine ends up with no
    lock ([isScrollLocked()] is false) and with the [rescrolling] flag
    down, on every host and for every [interval] option. *)
Theorem constructor_with_numeric_position
    (h : Host) (iv : option num) (n : num) :
  let s := new_Scrollinga h (mkOptions iv (Pnumber n)) in
  scrollLock (self s) = None
  /\ eval isScrollLocked s = false
  /\ scrollTop (target (host s)) = n
  /\ writes (trace s) = [(in_setInitialScrollLock, n)]
  /\ rescrolling (self s) = false.
Proof.
  destruct h as [t dpr mo ob nt pt sl rl ll].
  unfold new_Scrollinga, constructor, exec, setupListeners, setInterval,
         addEventListener, rescroll, shouldRescroll, isScrollLocked, eval,
         bind, ret, emit, modifyHost, modifySelf, this, window, set_observer,
         set_interval.
  cbn. destruct mo; cbn; repeat split.
Qed.

(** X6.  A [position] string other than ['top'] (['bottom'], a
    misspelling, the empty string) constructs exactly the engine that an
    absent [position] constructs. *)
Theorem constructor_position_defaults_to_bottom
    (h : Host) (iv : option num) (str : string) :
  str <> "top"%string ->
  new_Scrollinga h (mkOptions iv (Pstring str))
  = new_Scrollinga h (mkOptions iv Pundefined).
Proof.
  intro Hstr. unfold new_Scrollinga, constructor.
  cbn [opt_position setInitialScrollLock].
  destruct (String.eqb str "bottom"); [reflexivity |].
  destruct (String.eqb str "top") eqn:E; [| reflexivity].
  apply String.eqb_eq in E. contradiction.
Qed.

Lemma constructor_position_defaults_to_bottom_witness :
  new_Scrollinga long_page (mkOptions None (Pstring "Bottom"))
  = new_Scrollinga long_page (mkOptions None Pundefined).
Proof.
  apply constructor_position_defaults_to_bottom. discriminate.
Defined.

(** ** Locking at an edge *)


Lemma rescroll_at_rest (s : State) (l : ScrollLock) :
  scrollLock (self s) = Some l -> lock_when l (host s) = false ->
  exec rescroll s = mkState (self s) (host s) (Called_rescroll :: trace s).
Proof. intros Hl Hw. rewrite exec_rescroll, Hl, Hw. reflexivity. Qed.

Lemma rescroll_moving (s : State) (l : ScrollLock) :
  scrollLock (self s) = Some l -> lock_when l (host s) = true ->
  exec rescroll s =
  mkState (mkSelf (interval (self s)) (Some l) true (observer (self s)))
          (with_target (mkTarget (lock_at l (host s))
                                 (clientHeight (target (host s)))
                                 (scrollHeight (target (host s))))
                       (host s))
          (Wrote in_rescroll (lock_at l (host s)) :: Called_rescroll :: trace s).
Proof. intros Hl Hw. rewrite exec_rescroll, Hl, Hw. reflexivity. Qed.



Lemma exec_setScrollLockAtTop (s : State) :
  exec setScrollLockAtTop s =
  let x := mkSelf (interval (self s)) (Some lockAtTop) (rescrolling (self s))
                  (observer (self s)) in
  if isScrollUp (host s) then
    mkState x (host s) (Called_rescroll :: trace s)
  else
    mkState (mkSelf (interval (self s)) (Some lockAtTop) true
                    (observer (self s)))
            (with_target (mkTarget 0 (clientHeight (target (host s)))
                                   (scrollHeight (target (host s))))
                         (host s))
            (Wrote in_rescroll 0 :: Called_rescroll :: trace s).
Proof.
  unfold setScrollLockAtTop. rewrite exec_bind, exec_rescroll.
  rewrite exec_setScrollLock. cbn [self host trace scrollLock lock_when
                                   lock_at lockAtTop interval observer].
  destruct (isScrollUp (host s)); reflexivity.
Qed.

(** X8.  [setScrollLockAtTop()] installs the top lock and leaves the
    scroll offset at 0, writing it (a single 0) only if it was not 0
    already; a [rescroll] straight after it writes nothing more.  This
    holds in every state, also after [close()]. *)
Theorem setScrollLockAtTop_reaches_top (s : State) :
  let s' := exec setScrollLockAtTop s in
  scrollLock (self s') = Some lockAtTop
  /\ scrollTop (target (host s')) == 0
  /\ writes (trace s')
     = (if isScrollUp (host s) then [] else [(in_rescroll, 0)])
       ++ writes (trace s)
  /\ writes (trace (exec rescroll s')) = writes (trace s').
Proof.
  cbv zeta. rewrite exec_setScrollLockAtTop. cbv zeta.
  destruct (isScrollUp (host s)) eqn:E.
  - repeat split.
    + apply Qeq_bool_iff. exact E.
    + rewrite (rescroll_at_rest _ lockAtTop); [reflexivity | reflexivity |].
      cbn [host lock_when lockAtTop]. rewrite E. reflexivity.
  - repeat split.
Qed.

(** X9.  Constructing with [position: 'top'] ends with the top lock
    installed and the scroll offset at 0; the offset is written (once,
    by [rescroll]) exactly when it was not 0 before, and then the
    [rescrolling] flag is up for the scroll notification that write
    causes. *)
Theorem constructor_with_top_position (h : Host) (iv : option num) :
  let s := new_Scrollinga h (mkOptions iv (Pstring "top")) in
  scrollLock (self s) = Some lockAtTop
  /\ eval isScrollLocked s = true
  /\ scrollTop (target (host s)) == 0
  /\ writes (trace s) = (if isScrollUp h then [] else [(in_rescroll, 0)])
  /\ rescrolling (self s) = negb (isScrollUp h).
Proof.
  cbv zeta. unfold new_Scrollinga, constructor.
  cbn [opt_position setInitialScrollLock String.eqb Ascii.eqb Bool.eqb].
  rewrite !exec_bind.
  set (s1 := exec setScrollLockAtTop
               (exec (set_interval (interval_or_default (mkOptions iv (Pstring "top"))))
                     (mkState blank h []))).
  assert (H1 : scrollLock (self s1) = Some lockAtTop
               /\ isScrollUp (host s1) = true
               /\ scrollTop (target (host s1)) == 0
               /\ writes (trace s1)
                  = (if isScrollUp h then [] else [(in_rescroll, 0)])
               /\ rescrolling (self s1) = negb (isScrollUp h)).
  { unfold s1. rewrite exec_setScrollLockAtTop. cbv zeta.
    cbn [exec set_interval modifySelf snd host self trace].
    destruct (isScrollUp h) eqn:E; repeat split; try exact E.
    apply Qeq_bool_iff. exact E. }
  destruct H1 as (L1 & U1 & T1 & W1 & R1).
  destruct (exec_setupListeners s1) as (S2 & T2 & D2 & W2 & _).
  set (s2 := exec setupListeners s1) in *.
  assert (L2 : scrollLock (self s2) = Some lockAtTop).
  { rewrite S2. destruct (MutationObserver (host s1)); exact L1. }
  assert (R2 : rescrolling (self s2) = negb (isScrollUp h)).
  { rewrite S2. destruct (MutationObserver (host s1)); exact R1. }
  assert (U2 : isScrollUp (host s2) = true).
  { unfold isScrollUp. rewrite T2. exact U1. }
  rewrite (rescroll_at_rest s2 lockAtTop L2)
    by (cbn [lock_when lockAtTop]; rewrite U2; reflexivity).
  cbn [self host trace writes]. unfold eval, isScrollLocked, bind, this, ret.
  cbn. rewrite L2, T2, W2, W1. repeat split; assumption.
Qed.

(** ** Scroll notifications *)

(** X10.  [onScroll] never moves the viewport: whichever branch runs,
    also the one that installs the bottom lock, the host is left as it
    was and no write is made. *)
Theorem onScroll_never_writes (s : State) :
  host (exec onScroll s) = host s
  /\ writes (trace (exec onScroll s)) = writes (trace s).
Proof.
  rewrite exec_onScroll. cbv zeta.
  destruct (rescrolling (self s)); [split; reflexivity |].
  destruct (isScrollDown (host s)); [| split; reflexivity].
  destruct (scrollLock (self s)); split; reflexivity.
Qed.

(** X11.  The scroll notification that follows a write by [rescroll] is
    swallowed: wherever the viewport is when it arrives, [onScroll]
    keeps the lock, only lowers the [rescrolling] flag and touches
    nothing else. *)
Theorem scroll_after_rescroll_is_swallowed
    (s : State) (l : ScrollLock) (t : Target) :
  scrollLock (self s) = Some l ->
  lock_when l (host s) = true ->
  let s1 := exec rescroll s in
  let s2 := exec (step (Layout t)) s1 in
  let s3 := exec onScroll s2 in
  rescrolling (self s1) = true
  /\ scrollLock (self s3) = Some l
  /\ rescrolling (self s3) = false
  /\ host s3 = host s2
  /\ writes (trace s3) = writes (trace s1).
Proof.
  intros Hl Hw. cbv zeta. rewrite (rescroll_moving s l Hl Hw).
  rewrite exec_onScroll. repeat split.
Qed.

Lemma scroll_after_rescroll_is_swallowed_witness :
  let s1 := exec rescroll chat_grown in
  let s2 := exec (step (Layout (mkTarget 0 100 250))) s1 in
  let s3 := exec onScroll s2 in
  rescrolling (self s1) = true
  /\ scrollLock (self s3) = Some lockAtBottom
  /\ rescrolling (self s3) = false
  /\ host s3 = host s2
  /\ writes (trace s3) = writes (trace s1).
Proof.
  apply (scroll_after_rescroll_is_swallowed chat_grown lockAtBottom);
    reflexivity.
Defined.

(** ** Notifications other than scroll *)

(** An invariant kept by [rescroll], by page changes and by attaching
    and detaching load listeners is kept by every resize, mutation, load
    and timer notification. *)
Section Notifications.
Variable I : State -> Prop.
Hypothesis N_rescroll : preserves I rescroll.
Hypothesis N_layout : forall t, preserves I (modifyHost (with_target t)).
Hypothesis N_listen : forall i, preserves I (listenToImageLoad i).
Hypothesis N_detach : forall i, preserves I (removeLoadListener i).

Lemma N_step (e : Step) : notification e = true -> preserves I (step e).
Proof.
  destruct e; try discriminate; intros _; cbn [step];
    unfold onResize, onMutation, addImageListeners, dispatchLoad,
           imageLoadListener;
    preserve_with ltac:(first [ apply N_layout | apply N_listen
                              | apply N_detach ]).
Qed.

Lemma N_run (es : list Step) :
  forallb notification es = true -> preserves I (run es).
Proof.
  induction es as [|e es IH]; intro H; [apply preserves_ret |].
  cbn in H. apply andb_true_iff in H. destruct H as [He Hes].
  unfold run. cbn [forEach]. apply preserves_bind; [apply N_step, He |].
  intros _. apply IH, Hes.
Qed.
End Notifications.

Lemma notifications_keep_lock_aux (l : option ScrollLock) (es : list Step) :
  forallb notification es = true ->
  preserves (fun s => scrollLock (self s) = l) (run es).
Proof.
  intro H. apply N_run; [| | | | exact H].
  - intros s Hs. rewrite rescroll_keeps_lock. exact Hs.
  - intro; state_leaf.
  - intro; unfold listenToImageLoad; preserve_with state_leaf.
  - intro; unfold removeLoadListener; preserve_with state_leaf.
Qed.

(** X12.  Resize, mutation, image-load and timer notifications, and
    changes of the page, never change which lock is active: only
    [onScroll] and the lock-setting methods do. *)
Theorem notifications_keep_lock (s : State) (es : list Step) :
  forallb notification es = true ->
  scrollLock (self (exec (run es) s)) = scrollLock (self s).
Proof.
  intro H. apply (notifications_keep_lock_aux (scrollLock (self s)) es H).
  reflexivity.
Qed.

Lemma notifications_keep_lock_witness :
  scrollLock (self (exec (run [Layout (mkTarget 100 100 300); Mutation [];
                               Resize; Load 3%nat; Tick 1])
                         chat_grown))
  = scrollLock (self chat_grown).
Proof. apply notifications_keep_lock. reflexivity. Defined.

(** X13.  While no lock is set, no resize, mutation, image-load or timer
    notification writes the scroll offset, however the page changes in
    between; the engine stays unlocked and its [rescrolling] flag stays
    as it was. *)
Theorem unlocked_engine_never_writes (s : State) (es : list Step) :
  scrollLock (self s) = None ->
  forallb notification es = true ->
  let s' := exec (run es) s in
  writes (trace s') = writes (trace s)
  /\ scrollLock (self s') = None
  /\ rescrolling (self s') = rescrolling (self s).
Proof.
  intros Hl Hes. cbv zeta.
  assert (P : preserves (fun s' => (writes (trace s') = writes (trace s)
                                    /\ scrollLock (self s') = None)
                                   /\ rescrolling (self s')
                                      = rescrolling (self s))
                        (run es)).
  { apply N_run; [| | | | exact Hes].
    - intros s0 [[Hw Hn] Hr]. rewrite (rescroll_unlocked s0 Hn).
      cbn. repeat split; assumption.
    - intro; state_leaf.
    - intro; unfold listenToImageLoad; preserve_with state_leaf.
    - intro; unfold removeLoadListener; preserve_with state_leaf. }
  destruct (P s) as [[Hw Hn] Hr]; [repeat split; assumption |].
  repeat split; assumption.
Qed.

Lemma unlocked_engine_never_writes_witness :
  let s' := exec (run [Layout (mkTarget 20 100 400); Mutation []; Resize;
                       Load 3%nat])
                 reading in
  writes (trace s') = writes (trace reading)
  /\ scrollLock (self s') = None
  /\ rescrolling (self s') = rescrolling (self reading).
Proof. apply unlocked_engine_never_writes; reflexivity. Defined.

(** ** Subscriptions over the engine's life *)

(** An invariant kept by everything but [close()]. *)
Section BeforeClose.
Variable I : State -> Prop.
Hypothesis B_setScrollLock : forall l, preserves I (setScrollLock l).
Hypothesis B_rescroll : preserves I rescroll.
Hypothesis B_onScroll : preserves I onScroll.
Hypothesis B_layout : forall t, preserves I (modifyHost (with_target t)).
Hypothesis B_listen : forall i, preserves I (listenToImageLoad i).
Hypothesis B_detach : forall i, preserves I (removeLoadListener i).

Lemma B_step (e : Step) : is_close e = false -> preserves I (step e).
Proof.
  destruct e; try discriminate; intros _; cbn [step];
    unfold setScrollLockAtBottom, setScrollLockAtTop,
           setScrollLockAtCurrentPosition, removeScrollLock, onResize,
           onMutation, addImageListeners, dispatchLoad, imageLoadListener;
    preserve_with ltac:(first [ apply B_setScrollLock | apply B_layout
                              | apply B_listen | apply B_detach ]).
Qed.

Lemma B_run (es : list Step) :
  forallb (fun e => negb (is_close e)) es = true -> preserves I (run es).
Proof.
  induction es as [|e es IH]; intro H; [apply preserves_ret |].
  cbn in H. apply andb_true_iff in H. destruct H as [He Hes].
  unfold run. cbn [forEach]. apply preserves_bind.
  - apply B_step. destruct (is_close e); [discriminate | reflexivity].
  - intros _. apply IH, Hes.
Qed.
End BeforeClose.

Lemma live_rescroll mo handle :
  preserves (fun s => live mo handle (host s)) rescroll.
Proof.
  intros s H. rewrite exec_rescroll.
  destruct (scrollLock (self s)) as [l|]; [| exact H].
  destruct (lock_when l (host s)); exact H.
Qed.

Lemma live_onScroll mo handle :
  preserves (fun s => live mo handle (host s)) onScroll.
Proof.
  intros s H. rewrite exec_onScroll. cbv zeta.
  destruct (rescrolling (self s)); [exact H |].
  destruct (isScrollDown (host s)); [| exact H].
  destruct (scrollLock (self s)); exact H.
Qed.

Lemma pristine_setInitialScrollLock mo timer (position : Position) :
  preserves (fun s => pristine mo timer (host s))
            (setInitialScrollLock position).
Proof.
  assert (R : preserves (fun s => pristine mo timer (host s)) rescroll).
  { intros s H. rewrite exec_rescroll.
    destruct (scrollLock (self s)) as [l|]; [| exact H].
    destruct (lock_when l (host s)); exact H. }
  unfold setInitialScrollLock, setScrollLockAtBottom, setScrollLockAtTop,
         write_scrollTop.
  preserve_with state_leaf.
Qed.

Lemma live_setupListeners mo timer (s : State) :
  pristine mo timer (host s) ->
  live mo (inject_Z (Z.pos timer)) (host (exec setupListeners s)).
Proof.
  destruct s as [[i l r o] h tr]. intros (Hm & Ho & Hn & Hp). cbn in *.
  unfold exec, setupListeners, setInterval, addEventListener, bind, ret, emit,
         modifyHost, modifySelf, this, window, set_observer, set_interval.
  cbn. rewrite Hm. destruct mo; cbn; unfold live; cbn;
    rewrite ?Ho, ?Hn, ?Hp; repeat split.
Qed.

Lemma live_new_Scrollinga t dpr mo timer (o : Options) :
  live mo (inject_Z (Z.pos timer))
       (host (new_Scrollinga (page t dpr mo timer) o)).
Proof.
  unfold new_Scrollinga, constructor. rewrite !exec_bind.
  apply (live_rescroll mo (inject_Z (Z.pos timer))).
  apply live_setupListeners.
  apply (pristine_setInitialScrollLock mo timer).
  repeat split.
Qed.

(** X14.  From construction until [close()] is called the engine stays
    fully subscribed, whatever else happens: the scroll and resize
    listeners are registered, and exactly one change-detection strategy
    is running, the connected observer where [MutationObserver] exists
    and otherwise the one polling timer the constructor started. *)
Theorem subscribed_until_close
    (t : Target) (dpr : option num) (mo : bool) (timer : positive)
    (o : Options) (es : list Step) :
  forallb (fun e => negb (is_close e)) es = true ->
  let h := host (exec (run es) (new_Scrollinga (page t dpr mo timer) o)) in
  scrollListener h = true
  /\ resizeListener h = true
  /\ observing h = mo
  /\ pollTimers h = (if mo then [] else [inject_Z (Z.pos timer)]).
Proof.
  intro Hes. cbv zeta.
  pose proof (live_rescroll mo (inject_Z (Z.pos timer))).
  pose proof (live_onScroll mo (inject_Z (Z.pos timer))).
  apply (B_run (fun s => live mo (inject_Z (Z.pos timer)) (host s)));
    try assumption.
  - intro; state_leaf.
  - intro; state_leaf.
  - intro; unfold listenToImageLoad; preserve_with state_leaf.
  - intro; unfold removeLoadListener; preserve_with state_leaf.
  - apply live_new_Scrollinga.
Qed.

Lemma subscribed_until_close_witness :
  let h := host (exec (run [Scroll; Layout (mkTarget 0 100 300); Mutation [];
                            Call_setScrollLockAtTop; Tick 7])
                      (new_Scrollinga
                         (page (mkTarget 100 100 200) None false 7%positive)
                         (mkOptions None Pundefined))) in
  scrollListener h = true
  /\ resizeListener h = true
  /\ observing h = false
  /\ pollTimers h = [7].
Proof.
  apply (subscribed_until_close (mkTarget 100 100 200) None false 7%positive
           (mkOptions None Pundefined)).
  reflexivity.
Defined.

(** ** The polling timer *)

Lemma period_setInitialScrollLock v (position : Position) :
  preserves (fun s => interval (self s) = v
                      /\ timers_started (trace s) = [])
            (setInitialScrollLock position).
Proof.
  assert (R : preserves (fun s => interval (self s) = v
                                  /\ timers_started (trace s) = [])
                        rescroll).
  { intros s H. rewrite exec_rescroll.
    destruct (scrollLock (self s)) as [l|]; [| exact H].
    destruct (lock_when l (host s)); exact H. }
  unfold setInitialScrollLock, setScrollLockAtBottom, setScrollLockAtTop,
         write_scrollTop.
  preserve_with state_leaf.
Qed.

Lemma timers_run (k : list (num * num)) (v : num) (es : list Step) :
  preserves (fun s => timers_started (trace s) = k /\ interval (self s) = v)
            (run es).
Proof.
  apply I_run.
  - intro; state_leaf.
  - intros s H. rewrite exec_rescroll.
    destruct (scrollLock (self s)) as [l|]; [| exact H].
    destruct (lock_when l (host s)); exact H.
  - intros s H. rewrite exec_onScroll. cbv zeta.
    destruct (rescrolling (self s)); [exact H |].
    destruct (isScrollDown (host s)); [| exact H].
    destruct (scrollLock (self s)); exact H.
  - intros s H. rewrite exec_close. cbv zeta.
    destruct (truthy (interval (self s))), (observer (self s)); exact H.
  - intro; state_leaf.
  - intro; unfold listenToImageLoad; preserve_with state_leaf.
  - intro; unfold removeLoadListener; preserve_with state_leaf.
Qed.

Lemma timers_new_Scrollinga t dpr mo timer (o : Options) :
  let s := new_Scrollinga (page t dpr mo timer) o in
  timers_started (trace s)
  = (if mo then [] else [(interval_or_default o, inject_Z (Z.pos timer))])
  /\ interval (self s)
     = (if mo then interval_or_default o else inject_Z (Z.pos timer)).
Proof.
  cbv zeta. unfold new_Scrollinga, constructor. rewrite !exec_bind.
  set (s1 := exec (setInitialScrollLock (opt_position o))
                  (exec (set_interval (interval_or_default o))
                        (mkState blank (page t dpr mo timer) []))).
  assert (P1 : pristine mo timer (host s1))
    by (apply (pristine_setInitialScrollLock mo timer); repeat split).
  assert (V1 : interval (self s1) = interval_or_default o
               /\ timers_started (trace s1) = [])
    by (apply (period_setInitialScrollLock (interval_or_default o));
        split; reflexivity).
  destruct P1 as (Hm & _ & Hn & _). destruct V1 as [Hi Ht].
  destruct (exec_setupListeners s1) as (S2 & _ & _ & _ & T2).
  cbv zeta in S2, T2. rewrite Hm, Hn, Hi, Ht in *.
  rewrite exec_rescroll.
  destruct (scrollLock (self (exec setupListeners s1))) as [l|];
    [destruct (lock_when l (host (exec setupListeners s1))) |];
    cbn [self trace timers_started interval];
    rewrite ?S2, ?T2; destruct mo; split; reflexivity.
Qed.

(** X15.  Over its whole life the engine starts no timer where
    [MutationObserver] exists, and exactly one where it does not: the
    constructor's, whose period is [options.interval], or 100 when that
    is absent or 0 (so never 0), and whose handle is kept in
    [this.interval] from then on. *)
Theorem one_polling_timer_at_most
    (t : Target) (dpr : option num) (mo : bool) (timer : positive)
    (o : Options) (es : list Step) :
  let s := exec (run es) (new_Scrollinga (page t dpr mo timer) o) in
  let handle := inject_Z (Z.pos timer) in
  timers_started (trace s)
  = (if mo then [] else [(interval_or_default o, handle)])
  /\ interval (self s) = (if mo then interval_or_default o else handle)
  /\ truthy (interval_or_default o) = true.
Proof.
  cbv zeta.
  destruct (timers_run _ _ es _ (timers_new_Scrollinga t dpr mo timer o))
    as [Ht Hi].
  split; [exact Ht |]. split; [exact Hi | apply truthy_interval_or_default].
Qed.

(** ** Closing twice *)

Lemma filter_twice {A} (f : A -> bool) (l : list A) :
  filter f (filter f l) = filter f l.
Proof.
  induction l as [|a l IH]; [reflexivity |].
  cbn. destruct (f a) eqn:E; cbn; rewrite ?E, IH; reflexivity.
Qed.

(** X16.  [close()] may be called again: a second call leaves the
    engine's fields and the whole host exactly as the first call left
    them (it only repeats the same requests to the browser). *)
Theorem close_twice (s : State) :
  self (exec close (exec close s)) = self (exec close s)
  /\ host (exec close (exec close s)) = host (exec close s).
Proof.
  rewrite (exec_close (exec close s)). cbv zeta. rewrite !exec_close.
  cbv zeta. cbn [self host].
  destruct s as [[i l r o] h tr]. cbn [self host interval observer].
  split; [reflexivity |].
  destruct o; destruct (truthy i); cbn; rewrite ?filter_twice; reflexivity.
Qed.

(** ** The mutation handler *)

Lemma addImageListeners_frame (w : list (Site * num)) (t : Target)
    (mutations : list MutationRecord) :
  preserves (fun s => writes (trace s) = w /\ target (host s) = t)
            (addImageListeners mutations).
Proof.
  unfold addImageListeners, listenToImageLoad. preserve_with state_leaf.
Qed.

(** X17.  Handling a batch of mutations calls [rescroll] exactly once
    and then only attaches listeners, appended to the listeners already
    there: for each added node in turn, one to the node itself when its
    [tagName] is ['IMG'], then one to each descendant that
    [getElementsByTagName('img')] returns, the descendant elements whose
    qualified name is [img], in tree order.  Attaching changes neither
    the engine's fields nor the target and writes nothing. *)
Theorem onMutation_rescrolls_once_then_listens
    (s : State) (mutations : list MutationRecord) :
  let s1 := exec rescroll s in
  let s' := exec (onMutation mutations) s in
  rescroll_calls (trace s') = S (rescroll_calls (trace s))
  /\ loadListeners (host s') = loadListeners (host s) ++ encountered mutations
  /\ self s' = self s1
  /\ target (host s') = target (host s1)
  /\ writes (trace s') = writes (trace s1).
Proof.
  cbv zeta. unfold onMutation. rewrite exec_bind.
  change (eval rescroll s) with tt.
  destruct (exec_addImageListeners mutations (exec rescroll s))
    as (E1 & E2 & E3).
  destruct (addImageListeners_frame (writes (trace (exec rescroll s)))
              (target (host (exec rescroll s))) mutations (exec rescroll s))
    as [F1 F2]; [split; reflexivity |].
  rewrite E1, E2, E3, F1, F2. repeat split.
  - rewrite exec_rescroll.
    destruct (scrollLock (self s)) as [l|]; [| reflexivity].
    destruct (lock_when l (host s)); reflexivity.
  - f_equal. rewrite exec_rescroll.
    destruct (scrollLock (self s)) as [l|]; [| reflexivity].
    destruct (lock_when l (host s)); reflexivity.
Qed.

(** In an HTML document an added img element gets one listener, and so
    does each img element below it. *)
Lemma listened_html_img (id : nat) (kids : list Node) :
  listened (Element id true "img" kids) = id :: flat_map images kids.
Proof. reflexivity. Qed.

(** Where [tagName] keeps the case of the qualified name (an XML
    document), an img element added on its own gets no listener, since
    its [tagName] is not ['IMG'], while one added inside another element
    gets one. *)
Lemma xml_image_listeners (s : State) :
  let alone := [mkMutation [Element 2 false "img" []]] in
  let inside := [mkMutation [Element 1 false "div" [Element 2 false "img" []]]] in
  loadListeners (host (exec (onMutation alone) s))
  = loadListeners (host (exec rescroll s))
  /\ loadListeners (host (exec (onMutation inside) s))
     = loadListeners (host (exec rescroll s)) ++ [2%nat].
Proof.
  cbv zeta. unfold onMutation. rewrite !exec_bind.
  change (eval rescroll s) with tt.
  split.
  - destruct (exec_addImageListeners [mkMutation [Element 2 false "img" []]]
                (exec rescroll s)) as (_ & E & _).
    rewrite E. apply app_nil_r.
  - destruct (exec_addImageListeners
                [mkMutation [Element 1 false "div" [Element 2 false "img" []]]]
                (exec rescroll s)) as (_ & E & _).
    rewrite E. reflexivity.
Qed.

(** ** Load notifications *)

Lemma listeners_on_detach_other (image other : nat) (ls : list nat) :
  other <> image ->
  listeners_on other (detach image ls) = listeners_on other ls.
Proof.
  intro Hne. unfold listeners_on. induction ls as [|i ls IH]; [reflexivity |].
  cbn [detach]. destruct (Nat.eqb i image) eqn:E.
  - apply Nat.eqb_eq in E. subst i. cbn [filter].
    destruct (Nat.eqb other image) eqn:E'; [| reflexivity].
    apply Nat.eqb_eq in E'. contradiction.
  - cbn [filter]. destruct (Nat.eqb other i); cbn [List.length]; rewrite IH;
      reflexivity.
Qed.

Lemma fire_each_other (image other : nat) (l : list nat) (s : State) :
  other <> image ->
  listeners_on other
    (loadListeners (host (exec (forEach l (fun _ => imageLoadListener image)) s)))
  = listeners_on other (loadListeners (host s)).
Proof.
  intro Hne. revert s. induction l as [|i l IH]; intro s; [reflexivity |].
  rewrite exec_forEach_cons, IH.
  destruct (exec_imageLoadListener image s) as [E _].
  rewrite E. apply listeners_on_detach_other, Hne.
Qed.

(** X18.  A load notification on one image leaves the load listeners
    attached to every other image in place. *)
Theorem load_keeps_other_listeners (s : State) (image other : nat) :
  other <> image ->
  listeners_on other (loadListeners (host (exec (dispatchLoad image) s)))
  = listeners_on other (loadListeners (host s)).
Proof.
  intro Hne. unfold dispatchLoad. rewrite exec_bind.
  change (exec window s) with s.
  apply fire_each_other, Hne.
Qed.

Lemma load_keeps_other_listeners_witness :
  listeners_on 2
    (loadListeners
       (host (exec (dispatchLoad 1)
                (exec (onMutation
                         [mkMutation [Element 1 true "img" []; Element 2 true "img" []]])
                      chat_grown))))
  = 1%nat.
Proof.
  rewrite (load_keeps_other_listeners _ 1 2); [reflexivity | discriminate].
Defined.

(** ** The current-position lock *)

(** X19.  Under the lock set by [setScrollLockAtCurrentPosition] every
    [rescroll] writes, also when nothing has changed: [n] calls in a row
    make [n] writes of the same value, the content height minus the
    height captured when the lock was set. *)
Theorem current_position_lock_always_writes
    (s : State) (prev : num) (n : nat) :
  scrollLock (self s) = Some (lockAtCurrentPosition prev) ->
  writes (trace (exec (forEach (repeat tt n) (fun _ => rescroll)) s))
  = repeat (in_rescroll, scrollHeight (target (host s)) - prev) n
    ++ writes (trace s).
Proof.
  revert s. induction n as [|n IH]; intros s Hl; [reflexivity |].
  cbn [repeat]. rewrite exec_forEach_cons.
  rewrite (rescroll_moving s _ Hl eq_refl), IH by reflexivity.
  cbn [host trace writes target with_target scrollHeight lock_at
       lockAtCurrentPosition].
  change ((in_rescroll, scrollHeight (target (host s)) - prev)
          :: writes (trace s))
    with (repeat (in_rescroll, scrollHeight (target (host s)) - prev) 1
          ++ writes (trace s)).
  rewrite app_assoc, <- repeat_app, Nat.add_1_r. reflexivity.
Qed.

Lemma current_position_lock_always_writes_witness :
  let s := exec setScrollLockAtCurrentPosition reading in
  writes (trace (exec (forEach (repeat tt 2) (fun _ => rescroll)) s))
  = repeat (in_rescroll, scrollHeight (target (host s)) - 200) 2
    ++ writes (trace s).
Proof.
  apply (current_position_lock_always_writes
           (exec setScrollLockAtCurrentPosition reading) 200 2).
  reflexivity.
Defined.

(** ** Following the content *)




